(** * ActiveSpaceTransformer and the fermionic operator builder of qiskit-nature

    Shallow embedding of
    - [qiskit_nature/transformers/active_space_transformer.py]
    - [qiskit_nature/problems/second_quantization/molecular/fermionic_op_builder.py]

    Floating-point numbers are modelled by exact rationals [Q]; numpy arrays by
    their shape and an entry function; a [QMolecule] by its attribute
    dictionary, so that [getattr]/[setattr] by attribute name are modelled as
    the source writes them.  Python exceptions are the constructors of
    [PyErr]. *)

From Stdlib Require Import QArith Qround ZArith Lia Lqa Ascii String.
From stdpp Require Import base gmap strings list.

Open Scope Q_scope.

(* ------------------------------------------------------------------ *)
(** ** Python exceptions and the error monad *)

Inductive PyErr :=
| QiskitNatureError (msg : string)
| TypeError
| ValueError
| IndexError
| AttributeError (name : string).

Inductive result (A : Type) :=
| Ok (a : A)
| Err (e : PyErr).
Arguments Ok {A} a.
Arguments Err {A} e.

Definition rbind {A B} (m : result A) (k : A -> result B) : result B :=
  match m with Ok a => k a | Err e => Err e end.

Notation "'let?' x ':=' m 'in' k" := (rbind m (fun x => k))
  (at level 200, x name, m at level 100, right associativity).
Notation "'let?' ' p ':=' m 'in' k" := (rbind m (fun x => match x with p => k end))
  (at level 200, p pattern, m at level 100, right associativity).

Fixpoint rmap {A B} (f : A -> result B) (l : list A) : result (list B) :=
  match l with
  | [] => Ok []
  | x :: l' => let? y := f x in let? ys := rmap f l' in Ok (y :: ys)
  end.

(* ------------------------------------------------------------------ *)
(** ** numpy arrays *)

(** A one-dimensional float array. *)
Abbreviation Vec := (list Q).

(** A two-dimensional array: its shape and its entries. *)
Record Mat := mkMat { nrows : nat; ncols : nat; entry : nat -> nat -> Q }.

(** A four-dimensional array. *)
Record T4 := mkT4 { d0 : nat; d1 : nat; d2 : nat; d3 : nat;
                    tentry : nat -> nat -> nat -> nat -> Q }.

(** [sum(f(k) for k in range(n))] *)
Fixpoint qsum (n : nat) (f : nat -> Q) : Q :=
  match n with
  | O => 0
  | S n' => qsum n' f + f n'
  end.

(** A Python integer index into an axis of length [len]: negative indices
    count from the end, anything else out of range raises [IndexError]. *)
Definition py_index (len : nat) (i : Z) : result nat :=
  if (0 <=? i)%Z && (i <? Z.of_nat len)%Z then Ok (Z.to_nat i)
  else if (- Z.of_nat len <=? i)%Z && (i <? 0)%Z then Ok (Z.to_nat (Z.of_nat len + i))
  else Err IndexError.

(** [v[idxs]] for an integer list [idxs] (numpy fancy indexing). *)
Definition vec_select (v : Vec) (idxs : list Z) : result Vec :=
  let? ks := rmap (py_index (length v)) idxs in
  Ok (map (fun k => nth k v 0) ks).

(** [v[i]] *)
Definition vec_at (v : Vec) (i : Z) : result Q :=
  let? k := py_index (length v) i in Ok (nth k v 0).

(** [A[:, idxs]] *)
Definition col_select (A : Mat) (idxs : list Z) : result Mat :=
  let? ks := rmap (py_index (ncols A)) idxs in
  Ok (mkMat (nrows A) (length ks) (fun i k => entry A i (nth k ks O))).

(** [A.size] *)
Definition mat_size (A : Mat) : nat := (nrows A * ncols A)%nat.

(** [a + b] for one-dimensional arrays, with numpy broadcasting. *)
Definition vec_add (a b : Vec) : result Vec :=
  if decide (length a = length b) then Ok (zip_with Qplus a b)
  else match a, b with
       | [x], _ => Ok (map (Qplus x) b)
       | _, [y] => Ok (map (fun x => x + y) a)
       | _, _ => Err ValueError
       end.

(** Element-wise operations and products.  Shapes are those of the first
    operand; the shape errors numpy raises on inconsistent operands are not
    modelled (a [QMolecule] from a driver has consistent shapes). *)
Definition mat_add (A B : Mat) : Mat :=
  mkMat (nrows A) (ncols A) (fun i j => entry A i j + entry B i j).
Definition mat_sub (A B : Mat) : Mat :=
  mkMat (nrows A) (ncols A) (fun i j => entry A i j - entry B i j).
Definition mat_scale (c : Q) (A : Mat) : Mat :=
  mkMat (nrows A) (ncols A) (fun i j => c * entry A i j).
Definition transpose (A : Mat) : Mat :=
  mkMat (ncols A) (nrows A) (fun i j => entry A j i).
(** [np.dot(A, B)] *)
Definition dot (A B : Mat) : Mat :=
  mkMat (nrows A) (ncols B)
    (fun i j => qsum (ncols A) (fun k => entry A i k * entry B k j)).
(** [A * v] for a matrix [A] and a vector [v] of length [A.shape[1]]:
    column [k] scaled by [v[k]]. *)
Definition mat_mul_row (A : Mat) (v : Vec) : result Mat :=
  if decide (length v = ncols A) then
    Ok (mkMat (nrows A) (ncols A) (fun i k => entry A i k * nth k v 0))
  else match v with
       | [c] => Ok (mat_scale c A)
       | _ => Err ValueError
       end.

(** [np.einsum('ijkl,ji->kl', eri, D)] *)
Definition einsum_coulomb (eri : T4) (D : Mat) : Mat :=
  mkMat (d2 eri) (d3 eri) (fun k l =>
    qsum (d0 eri) (fun i => qsum (d1 eri) (fun j => tentry eri i j k l * entry D j i))).

(** [np.einsum('ijkl,jk->il', eri, D)] *)
Definition einsum_exchange (eri : T4) (D : Mat) : Mat :=
  mkMat (d0 eri) (d3 eri) (fun i l =>
    qsum (d1 eri) (fun j => qsum (d2 eri) (fun k => tentry eri i j k l * entry D j k))).

(** [np.einsum('ij,ji', D, X)] *)
Definition einsum_trace (D X : Mat) : Q :=
  qsum (nrows D) (fun i => qsum (ncols D) (fun j => entry D i j * entry X j i)).

(** [np.einsum('pqrs,pi,qj,rk,sl->ijkl', eri, P, Q, R, S)] *)
Definition einsum_4index (eri : T4) (P Q' R S : Mat) : T4 :=
  mkT4 (ncols P) (ncols Q') (ncols R) (ncols S) (fun i j k l =>
    qsum (d0 eri) (fun p => qsum (d1 eri) (fun q => qsum (d2 eri) (fun r =>
      qsum (d3 eri) (fun s =>
        tentry eri p q r s * entry P p i * entry Q' q j * entry R r k * entry S s l))))).

(* ------------------------------------------------------------------ *)
(** ** Python values and the [QMolecule] object *)

Inductive PyVal :=
| VNone
| VInt (z : Z)
| VFloat (q : Q)
| VList (l : list Z)
| VVec (v : Vec)
| VMat (m : Mat)
| VT4 (t : T4)
| VDict (d : gmap string Q).

(** A [QMolecule] instance, as its attribute dictionary. *)
Abbreviation QMolecule := (gmap string PyVal).

(** [getattr(obj, name)]; the name is a Python value, [None] raising
    [TypeError] ("attribute name must be string"). *)
Definition getattr (obj : QMolecule) (name : option string) : result PyVal :=
  match name with
  | None => Err TypeError
  | Some n => match obj !! n with Some v => Ok v | None => Err (AttributeError n) end
  end.

(** [setattr(obj, name, v)] *)
Definition setattr (obj : QMolecule) (name : option string) (v : PyVal) : result QMolecule :=
  match name with
  | None => Err TypeError
  | Some n => Ok (<[n := v]> obj)
  end.

Definition as_int (v : PyVal) : result Z :=
  match v with VInt z => Ok z | _ => Err TypeError end.
Definition as_mat (v : PyVal) : result Mat :=
  match v with VMat m => Ok m | _ => Err TypeError end.
Definition as_mat_opt (v : PyVal) : result (option Mat) :=
  match v with VNone => Ok None | VMat m => Ok (Some m) | _ => Err TypeError end.
Definition as_vec_opt (v : PyVal) : result (option Vec) :=
  match v with VNone => Ok None | VVec x => Ok (Some x) | _ => Err TypeError end.
Definition as_list (v : PyVal) : result (list Z) :=
  match v with VList l => Ok l | _ => Err TypeError end.
Definition as_dict (v : PyVal) : result (gmap string Q) :=
  match v with VDict d => Ok d | _ => Err TypeError end.
Definition of_mat_opt (m : option Mat) : PyVal :=
  match m with Some a => VMat a | None => VNone end.

(** [bool(v)]; numpy refuses the truth value of an array of more than one
    element. *)
Definition py_truthy (v : PyVal) : result bool :=
  match v with
  | VNone => Ok false
  | VInt z => Ok (negb (z =? 0)%Z)
  | VFloat q => Ok (negb (Qeq_bool q 0))
  | VList l => Ok (negb (bool_decide (l = [])))
  | VVec x => match x with [] => Ok false | [q] => Ok (negb (Qeq_bool q 0)) | _ => Err ValueError end
  | VMat m => match mat_size m with
              | O => Ok false
              | 1%nat => Ok (negb (Qeq_bool (entry m 0 0) 0))
              | _ => Err ValueError
              end
  | VT4 t => match (d0 t * d1 t * d2 t * d3 t)%nat with
             | O => Ok false
             | 1%nat => Ok (negb (Qeq_bool (tentry t 0 0 0 0) 0))
             | _ => Err ValueError
             end
  | VDict d => Ok (negb (bool_decide (d = ∅)))
  end.

(** [a or b] *)
Definition py_or (a b : PyVal) : result PyVal :=
  let? t := py_truthy a in if t then Ok a else Ok b.

(** [a + b] on two arrays; [None + array] raises [TypeError]. *)
Definition py_add (a b : PyVal) : result Mat :=
  match a, b with VMat x, VMat y => Ok (mat_add x y) | _, _ => Err TypeError end.

(* ------------------------------------------------------------------ *)
(** ** The transformer's configuration *)

Record ActiveSpaceTransformer := {
  num_electrons : option Z;
  num_molecular_orbitals : option Z;
  num_alpha : option Z;
  active_orbitals : option (list Z);
  freeze_core : bool;
  remove_orbitals : option (list Z)
}.

(** The scratch values [transform] stores on [self] while it runs. *)
Record Ctx := {
  ctx_beta : bool;
  ctx_mo_coeff_active : Mat * option Mat;
  ctx_mo_coeff_inactive : Mat * option Mat;
  ctx_density_inactive : Mat * option Mat
}.

(* ------------------------------------------------------------------ *)
(** ** A state and error monad: the state is the caller's [QMolecule] *)

Definition M (A : Type) : Type := QMolecule -> QMolecule * result A.

Definition mret {A} (a : A) : M A := fun s => (s, Ok a).
Definition mbind {A B} (m : M A) (k : A -> M B) : M B :=
  fun s => match m s with
           | (s', Ok a) => k a s'
           | (s', Err e) => (s', Err e)
           end.
Definition lift {A} (r : result A) : M A := fun s => (s, r).
Definition raise {A} (e : PyErr) : M A := fun s => (s, Err e).
Definition mget : M QMolecule := fun s => (s, Ok s).
Definition mput (s' : QMolecule) : M unit := fun _ => (s', Ok tt).

Notation "'let!' x ':=' m 'in' k" := (mbind m (fun x => k))
  (at level 200, x name, m at level 100, right associativity).
Notation "'let!' ' p ':=' m 'in' k" := (mbind m (fun x => match x with p => k end))
  (at level 200, p pattern, m at level 100, right associativity).

(** [q_molecule.name] *)
Definition mattr (name : string) : M PyVal :=
  fun s => (s, getattr s (Some name)).

(* ------------------------------------------------------------------ *)
(** ** [ActiveSpaceTransformer] *)

(** [list(range(a, a + n))] *)
Definition py_range_from (a n : Z) : list Z := seqZ a n.

(** [x in l] *)
Definition py_in (x : Z) (l : list Z) : bool := existsb (Z.eqb x) l.

(** [max(l)]; [max([])] raises [ValueError]. *)
Definition py_max (l : list Z) : result Z :=
  match l with [] => Err ValueError | x :: l' => Ok (fold_left Z.max l' x) end.

(** [sum(l)] *)
Definition py_sum (l : list Q) : Q := fold_left Qplus l 0.

(** [[f(x) for x in l if p(x)]] where evaluating [p] may raise. *)
Fixpoint rfilter {A} (p : A -> result bool) (l : list A) : result (list A) :=
  match l with
  | [] => Ok []
  | x :: l' => let? b := p x in let? r := rfilter p l' in Ok (if b then x :: r else r)
  end.

(** Stop index of the slice [l[:stop]] of a list of length [len]. *)
Definition py_slice_stop (len : nat) (stop : Z) : nat :=
  if (0 <=? stop)%Z then Nat.min (Z.to_nat stop) len
  else Z.to_nat (Z.max 0 (Z.of_nat len + stop)).

(** [[x] * k] *)
Definition py_repeat (x : Q) (k : Z) : list Q := repeat x (Z.to_nat k).

Definition _check_configuration (self : ActiveSpaceTransformer) : bool :=
  freeze_core self || (bool_decide (is_Some (num_electrons self)) &&
                       bool_decide (is_Some (num_molecular_orbitals self))).

Definition _extract_mo_occupation_vector (beta : bool) (q : QMolecule)
    : result (Vec * option Vec) :=
  let? v := getattr q (Some "mo_occ") in
  let? mo_occ := as_vec_opt v in
  let? vb := getattr q (Some "mo_occ_b") in
  let? mo_occ_b := as_vec_opt vb in
  match mo_occ with
  | Some occ => Ok (occ, mo_occ_b)
  | None =>
      let? na := getattr q (Some "num_alpha") in let? na := as_int na in
      let? nb := getattr q (Some "num_beta") in let? nb := as_int nb in
      let? n := getattr q (Some "num_orbitals") in let? n := as_int n in
      let occ_alpha := py_repeat 1 na ++ py_repeat 0 (n - na) in
      if beta then
        let occ_beta := py_repeat 1 nb ++ py_repeat 0 (n - nb) in
        Ok (occ_alpha, Some occ_beta)
      else
        let k := py_slice_stop (length occ_alpha) nb in
        Ok (map (fun o => o + 1) (take k occ_alpha) ++ drop k occ_alpha, None)
  end.

(** [self._mo_occ_total] *)
Definition mo_occ_total (beta : bool) (occ_full : Vec * option Vec) : result Vec :=
  if beta then
    match occ_full.2 with Some b => vec_add occ_full.1 b | None => Err TypeError end
  else Ok occ_full.1.

Definition _validate_num_electrons (nelec_inactive : Z) : result unit :=
  if (nelec_inactive <? 0)%Z then
    Err (QiskitNatureError "More electrons requested than available.")
  else if negb (nelec_inactive mod 2 =? 0)%Z then
    Err (QiskitNatureError "The number of inactive electrons must be even.")
  else Ok tt.

Definition msg_more_orbitals : string := "More orbitals requested than available.".
Definition msg_active_count : string :=
  "The number of selected active orbital indices does not match the specified number of active orbitals.".
Definition msg_active_electrons : string :=
  "The number of electrons in the selected active orbitals does not match the specified number of active electrons.".

Definition _validate_num_orbitals (self : ActiveSpaceTransformer) (occ_total : Vec)
    (nelec_inactive : Z) (q : QMolecule) : result unit :=
  let? n := getattr q (Some "num_orbitals") in let? n := as_int n in
  match active_orbitals self with
  | None =>
      let norbs_inactive := (nelec_inactive / 2)%Z in
      let? m := match num_molecular_orbitals self with Some m => Ok m | None => Err TypeError end in
      if (norbs_inactive + m >? n)%Z then Err (QiskitNatureError msg_more_orbitals)
      else Ok tt
  | Some act =>
      let mismatch := match num_molecular_orbitals self with
                      | Some m => negb (m =? Z.of_nat (length act))%Z
                      | None => true
                      end in
      if mismatch then Err (QiskitNatureError msg_active_count)
      else let? mx := py_max act in
      if (mx >=? n)%Z then Err (QiskitNatureError msg_more_orbitals)
      else let? occ := vec_select occ_total act in
      let? ne := match num_electrons self with Some e => Ok e | None => Err TypeError end in
      if negb (Qeq_bool (py_sum occ) (inject_Z ne)) then
        Err (QiskitNatureError msg_active_electrons)
      else Ok tt
  end.

(** Returns [(active_orbs_idxs, inactive_orbs_idxs)] and the value stored in
    [self._num_particles].  In the [freeze_core] branch the list
    [q_molecule.core_orbitals] itself is extended with [remove_orbitals]. *)
Definition _determine_active_space (self : ActiveSpaceTransformer) (beta : bool)
    (occ_total : Vec) : M (list Z * list Z * (PyVal * PyVal)) :=
  let! na := mattr "num_alpha" in let! na := lift (as_int na) in
  let! nb := mattr "num_beta" in let! nb := lift (as_int nb) in
  let nelec_total := (na + nb)%Z in
  if freeze_core self then
    let! core := mattr "core_orbitals" in let! core := lift (as_list core) in
    let! inactive_orbs_idxs :=
      match remove_orbitals self with
      | None => mret core
      | Some r =>
          let! q := mget in
          let! _ := mput (<["core_orbitals" := VList (core ++ r)]> q) in
          mret (core ++ r)
      end in
    let! n := mattr "num_orbitals" in let! n := lift (as_int n) in
    let active_orbs_idxs :=
      filter (fun o => negb (py_in o inactive_orbs_idxs)) (py_range_from 0 n) in
    let! occs := lift (rmap (vec_at occ_total) inactive_orbs_idxs) in
    let nelec_inactive := py_sum occs in
    let nelec_active := inject_Z nelec_total - nelec_inactive in
    let! mult := mattr "multiplicity" in let! mult := lift (as_int mult) in
    let n_alpha := inject_Z (Qfloor ((nelec_active - inject_Z (mult - 1)) / 2)) in
    let n_beta := nelec_active - n_alpha in
    mret (active_orbs_idxs, inactive_orbs_idxs, (VFloat n_alpha, VFloat n_beta))
  else
    let! ne := lift (match num_electrons self with Some e => Ok e | None => Err TypeError end) in
    let nelec_inactive := (nelec_total - ne)%Z in
    let! '(n_alpha, n_beta) :=
      match num_alpha self with
      | Some a => mret (a, ne - a)%Z
      | None =>
          let! mult := mattr "multiplicity" in let! mult := lift (as_int mult) in
          let b := ((ne - (mult - 1)) / 2)%Z in mret (ne - b, b)%Z
      end in
    let! _ := lift (_validate_num_electrons nelec_inactive) in
    let! q := mget in
    let! _ := lift (_validate_num_orbitals self occ_total nelec_inactive q) in
    match active_orbitals self with
    | None =>
        let norbs_inactive := (nelec_inactive / 2)%Z in
        let! m := lift (match num_molecular_orbitals self with Some m => Ok m | None => Err TypeError end) in
        mret (py_range_from norbs_inactive m, py_range_from 0 norbs_inactive,
              (VInt n_alpha, VInt n_beta))
    | Some act =>
        let! inactive_orbs_idxs := lift (rfilter (fun o =>
            if py_in o act then Ok false
            else let? x := vec_at occ_total o in Ok (negb (Qle_bool x 0)))
          (py_range_from 0 (nelec_total / 2))) in
        mret (act, inactive_orbs_idxs, (VInt n_alpha, VInt n_beta))
    end.

Definition the {A} (o : option A) : result A :=
  match o with Some a => Ok a | None => Err TypeError end.

Definition _compute_inactive_density_matrix (beta : bool) (mo_coeff_inactive : Mat * option Mat)
    (mo_occ_inactive : Vec * option Vec) : result (Mat * option Mat) :=
  let? ca := mat_mul_row mo_coeff_inactive.1 mo_occ_inactive.1 in
  let density_inactive_a := dot ca (transpose mo_coeff_inactive.1) in
  if beta then
    let? cb := the mo_coeff_inactive.2 in
    let? ob := the mo_occ_inactive.2 in
    let? cbo := mat_mul_row cb ob in
    Ok (density_inactive_a, Some (dot cbo (transpose cb)))
  else Ok (density_inactive_a, None).

Definition _compute_inactive_fock_op (ctx : Ctx) (hcore : PyVal * PyVal) (eri : T4)
    : result (PyVal * PyVal) :=
  let da := (ctx_density_inactive ctx).1 in
  let coulomb_inactive := einsum_coulomb eri da in
  let exchange_inactive := einsum_exchange eri da in
  let? h0 := as_mat hcore.1 in
  let fock_inactive :=
    mat_sub (mat_add h0 coulomb_inactive) (mat_scale (1#2) exchange_inactive) in
  if ctx_beta ctx then
    let? hcore_b := py_or hcore.2 hcore.1 in
    let? hcore_b := as_mat hcore_b in
    let? db := the (ctx_density_inactive ctx).2 in
    let coulomb_inactive_b := einsum_coulomb eri db in
    let exchange_inactive_b := einsum_exchange eri db in
    let fock_inactive :=
      mat_sub (mat_add (mat_add h0 coulomb_inactive) coulomb_inactive_b) exchange_inactive in
    let fock_inactive_b :=
      mat_sub (mat_add (mat_add hcore_b coulomb_inactive) coulomb_inactive_b)
              exchange_inactive_b in
    Ok (VMat fock_inactive, VMat fock_inactive_b)
  else Ok (VMat fock_inactive, VNone).

Definition _compute_inactive_energy (ctx : Ctx) (hcore fock_inactive : PyVal * PyVal)
    : result Q :=
  let e_inactive := 0 in
  let size_b := match (ctx_mo_coeff_inactive ctx).2 with Some c => mat_size c | None => O end in
  if negb (ctx_beta ctx) && (0 <? mat_size (ctx_mo_coeff_inactive ctx).1)%nat then
    let? x := py_add hcore.1 fock_inactive.1 in
    Ok (e_inactive + (1#2) * einsum_trace (ctx_density_inactive ctx).1 x)
  else if ctx_beta ctx && (0 <? size_b)%nat then
    let? x := py_add hcore.1 fock_inactive.1 in
    let e_inactive := e_inactive + (1#2) * einsum_trace (ctx_density_inactive ctx).1 x in
    let? db := the (ctx_density_inactive ctx).2 in
    let? xb := py_add hcore.2 fock_inactive.2 in
    Ok (e_inactive + (1#2) * einsum_trace db xb)
  else Ok e_inactive.

(** [np.dot(np.dot(np.transpose(C), F), C)] *)
Definition project (C F : Mat) : Mat := dot (dot (transpose C) F) C.

Definition _compute_active_integrals (ctx : Ctx) (fock_inactive : PyVal * PyVal)
    (eri : option T4) : result ((Mat * option Mat) * option (T4 * option T4 * option T4)) :=
  let ca := (ctx_mo_coeff_active ctx).1 in
  let? f0 := as_mat fock_inactive.1 in
  let hij := project ca f0 in
  let? hij_b :=
    if ctx_beta ctx then
      let? cb := the (ctx_mo_coeff_active ctx).2 in
      let? f1 := as_mat fock_inactive.2 in
      Ok (Some (project cb f1))
    else Ok None in
  match eri with
  | None => Ok ((hij, hij_b), None)
  | Some e =>
      let hijkl := einsum_4index e ca ca ca ca in
      if ctx_beta ctx then
        let? cb := the (ctx_mo_coeff_active ctx).2 in
        let hijkl_bb := einsum_4index e cb cb cb cb in
        let hijkl_ba := einsum_4index e cb cb ca ca in
        Ok ((hij, hij_b), Some (hijkl, Some hijkl_ba, Some hijkl_bb))
      else Ok ((hij, hij_b), Some (hijkl, None, None))
  end.

Definition _reduce_to_active_space (ctx : Ctx) (q_molecule q_molecule_reduced : QMolecule)
    (energy_shift_attribute : string)
    (ao_1e_attribute : option string * option string)
    (mo_1e_attribute : option string * option string)
    (ao_2e_attribute : option string)
    (mo_2e_attribute : option (option string * option string * option string))
    : result QMolecule :=
  let? a0 := getattr q_molecule ao_1e_attribute.1 in
  let? a1 := if ctx_beta ctx then getattr q_molecule ao_1e_attribute.2 else Ok VNone in
  let ao_1e_matrix := (a0, a1) in
  let? ao_2e_matrix :=
    match ao_2e_attribute with
    | Some n => if String.eqb n EmptyString then Ok VNone else getattr q_molecule (Some n)
    | None => Ok VNone
    end in
  let? '(inactive_op, eri) :=
    match ao_2e_matrix with
    | VNone => Ok (ao_1e_matrix, None)
    | VT4 e => let? f := _compute_inactive_fock_op ctx ao_1e_matrix e in Ok (f, Some e)
    | _ => Err TypeError
    end in
  let? energy_shift := _compute_inactive_energy ctx ao_1e_matrix inactive_op in
  let? '(mo_1e_matrix, mo_2e_matrix) := _compute_active_integrals ctx inactive_op eri in
  let? shifts := getattr q_molecule_reduced (Some energy_shift_attribute) in
  let? shifts := as_dict shifts in
  let? r := setattr q_molecule_reduced (Some energy_shift_attribute)
              (VDict (<["ActiveSpaceTransformer" := energy_shift]> shifts)) in
  let? r := setattr r ao_1e_attribute.1 inactive_op.1 in
  let? r := setattr r mo_1e_attribute.1 (VMat mo_1e_matrix.1) in
  let? r :=
    if ctx_beta ctx then
      let? r := setattr r ao_1e_attribute.2 inactive_op.2 in
      setattr r mo_1e_attribute.2 (of_mat_opt mo_1e_matrix.2)
    else Ok r in
  match mo_2e_matrix with
  | None => Ok r
  | Some (hijkl, hijkl_ba, hijkl_bb) =>
      let? '(n0, n1, n2) := the mo_2e_attribute in
      let? r := setattr r n0 (VT4 hijkl) in
      if ctx_beta ctx then
        let? r := setattr r n1 (match hijkl_ba with Some t => VT4 t | None => VNone end) in
        setattr r n2 (match hijkl_bb with Some t => VT4 t | None => VNone end)
      else Ok r
  end.

Definition msg_insufficient : string :=
  "Insufficient Active-Space configuration. You must either use the `freeze_core` option or choose another active space.".

(** Lines 140-145 of [transform]: the orbital coefficients and occupations. *)
Definition _transform_setup : M (Mat * option Mat * (Vec * option Vec) * Vec) :=
  let! c := mattr "mo_coeff" in let! c := lift (as_mat c) in
  let! cb := mattr "mo_coeff_b" in let! cb := lift (as_mat_opt cb) in
  let beta := bool_decide (is_Some cb) in
  let! q := mget in
  let! mo_occ_full := lift (_extract_mo_occupation_vector beta q) in
  let! occ_total := lift (mo_occ_total beta mo_occ_full) in
  mret (c, cb, mo_occ_full, occ_total).

(** Lines 149-199 of [transform]: the reduction once the orbital partition is
    known. *)
Definition _transform_reduce (self : ActiveSpaceTransformer) (c : Mat) (cb : option Mat)
    (mo_occ_full : Vec * option Vec) (active_orbs_idxs inactive_orbs_idxs : list Z)
    (num_particles : PyVal * PyVal) : M QMolecule :=
  let beta := bool_decide (is_Some cb) in
  let sel_b (i : list Z) := match cb with
                            | Some m => let? x := col_select m i in Ok (Some x)
                            | None => Ok None end in
  let! c_in := lift (col_select c inactive_orbs_idxs) in
  let! cb_in := lift (sel_b inactive_orbs_idxs) in
  let! c_act := lift (col_select c active_orbs_idxs) in
  let! cb_act := lift (sel_b active_orbs_idxs) in
  let! occ_in := lift (vec_select mo_occ_full.1 inactive_orbs_idxs) in
  let! occ_in_b := lift (if beta then let? o := the mo_occ_full.2 in
                                      let? x := vec_select o inactive_orbs_idxs in Ok (Some x)
                         else Ok None) in
  let! density := lift (_compute_inactive_density_matrix beta (c_in, cb_in) (occ_in, occ_in_b)) in
  let ctx := {| ctx_beta := beta; ctx_mo_coeff_active := (c_act, cb_act);
                ctx_mo_coeff_inactive := (c_in, cb_in); ctx_density_inactive := density |} in
  (* construct new QMolecule *)
  let! q_molecule := mget in
  let r := q_molecule in
  let r := <["num_orbitals" := match num_molecular_orbitals self with
                               | Some m => VInt m | None => VNone end]> r in
  let r := <["num_alpha" := num_particles.1]> r in
  let r := <["num_beta" := num_particles.2]> r in
  let r := <["mo_coeff" := VMat c_act]> r in
  let r := <["mo_coeff_b" := of_mat_opt cb_act]> r in
  let! oe := mattr "orbital_energies" in
  let! oe := lift (match oe with VVec v => vec_select v active_orbs_idxs | _ => Err TypeError end) in
  let r := <["orbital_energies" := VVec oe]> r in
  let! r := (if beta then
               let! oeb := mattr "orbital_energies_b" in
               let! oeb := lift (match oeb with VVec v => vec_select v active_orbs_idxs
                                              | _ => Err TypeError end) in
               mret (<["orbital_energies_b" := VVec oeb]> r)
             else mret r) in
  let r := <["kinetic" := VNone]> r in
  let r := <["overlap" := VNone]> r in
  (* reduce electronic energy integrals *)
  let! r := lift (_reduce_to_active_space ctx q_molecule r "energy_shift"
                    (Some "hcore", Some "hcore_b") (Some "mo_onee_ints", Some "mo_onee_ints_b")
                    (Some "eri") (Some (Some "mo_eri_ints", Some "mo_eri_ints_ba", Some "mo_eri_ints_bb"))) in
  (* reduce dipole moment integrals *)
  let! r := lift (_reduce_to_active_space ctx q_molecule r "x_dip_energy_shift"
                    (Some "x_dip_ints", None) (Some "x_dip_mo_ints", Some "x_dip_mo_ints_b")
                    None None) in
  let! r := lift (_reduce_to_active_space ctx q_molecule r "y_dip_energy_shift"
                    (Some "y_dip_ints", None) (Some "y_dip_mo_ints", Some "y_dip_mo_ints_b")
                    None None) in
  let! r := lift (_reduce_to_active_space ctx q_molecule r "z_dip_energy_shift"
                    (Some "z_dip_ints", None) (Some "z_dip_mo_ints", Some "z_dip_mo_ints_b")
                    None None) in
  mret r.

(** [ActiveSpaceTransformer.transform]: run on the caller's [q_molecule] (the
    state), it returns the caller's object as left after the call and the
    result (the reduced molecule or the exception raised). *)
Definition transform (self : ActiveSpaceTransformer) : M QMolecule :=
  if negb (_check_configuration self) then raise (QiskitNatureError msg_insufficient) else
  let! '(c, cb, mo_occ_full, occ_total) := _transform_setup in
  let beta := bool_decide (is_Some cb) in
  let! '(active_orbs_idxs, inactive_orbs_idxs, num_particles) :=
    _determine_active_space self beta occ_total in
  _transform_reduce self c cb mo_occ_full active_orbs_idxs inactive_orbs_idxs num_particles.

(* ------------------------------------------------------------------ *)
(** ** The fermionic operator builder *)

(** Modelled from the spec: [FermionicOp] (qiskit_nature/operators/
    second_quantization/fermionic_op.py is not among the sources).  The spec
    describes an operator sum as an ordered sequence of (label, coefficient)
    pairs, a label holding one of [I], [+], [-] per orbital; the builder scales
    [FermionicOp(label)] by an integral value to obtain the term of that
    coefficient, so [FermionicOp(label)] is the single term of coefficient 1. *)
Abbreviation FermionicOp := (list (string * Q)).

(** Modelled from the spec: [FermionicOp(label)]. *)
Definition FermionicOp_of_label (label : string) : FermionicOp := [(label, 1)].

(** Modelled from the spec: [coeff * op]. *)
Definition fop_scale (c : Q) (op : FermionicOp) : FermionicOp :=
  map (fun '(l, x) => (l, c * x)) op.

(** Modelled from the spec: [op1 + op2], the sum of the two term sequences
    (before canonicalisation). *)
Definition fop_add (a b : FermionicOp) : FermionicOp := a ++ b.

(** Modelled from the spec: [op.reduce()]: terms with the same label are
    merged (coefficients summed, in order of first occurrence) and terms whose
    coefficient is exactly zero are dropped. *)
Fixpoint fop_insert (acc : FermionicOp) (l : string) (x : Q) : FermionicOp :=
  match acc with
  | [] => [(l, x)]
  | (l', y) :: acc' => if String.eqb l l' then (l', y + x) :: acc'
                       else (l', y) :: fop_insert acc' l x
  end.
Definition fop_reduce (op : FermionicOp) : FermionicOp :=
  filter (fun '(_, x) => negb (Qeq_bool x 0))
         (fold_left (fun acc '(l, x) => fop_insert acc l x) op []).

(** [A[i, j]] with bounds checked *)
Definition mat_at (A : Mat) (i j : nat) : result Q :=
  if (i <? nrows A)%nat && (j <? ncols A)%nat then Ok (entry A i j) else Err IndexError.
(** [T[i, j, k, l]] with bounds checked *)
Definition t4_at (T : T4) (i j k l : nat) : result Q :=
  if (i <? d0 T)%nat && (j <? d1 T)%nat && (k <? d2 T)%nat && (l <? d3 T)%nat
  then Ok (tentry T i j k l) else Err IndexError.

(** [itertools.product(range(n), repeat=2)] and [repeat=4], in order. *)
Definition product2 (n : nat) : list (nat * nat) :=
  flat_map (fun i => map (fun j => (i, j)) (seq 0 n)) (seq 0 n).
Definition product4 (n : nat) : list (nat * nat * nat * nat) :=
  flat_map (fun '(i, j) => map (fun '(k, l) => (i, j, k, l)) (product2 n)) (product2 n).

(** [''.join(label)] for a label given as a list of one-character strings. *)
Definition join (label : list ascii) : string := string_of_list_ascii label.

(** [label_i = label.copy(); label_i[i] = op] *)
Definition set_label (label : list ascii) (i : nat) (op : ascii) : result (list ascii) :=
  if (i <? length label)%nat then Ok (<[i := op]> label) else Err IndexError.

Section Builder.

(** The composition [op1 @ op2] of the external operator algebra; the spec
    leaves its semantics to that collaborator. *)
Variable fop_compose : FermionicOp -> FermionicOp -> FermionicOp.

(** [base_op @= FermionicOp(label_i)] for each [(i, op)] in turn. *)
Fixpoint compose_sites (label : list ascii) (base_op : FermionicOp)
    (sites : list (nat * ascii)) : result FermionicOp :=
  match sites with
  | [] => Ok base_op
  | (i, op) :: rest =>
      let? label_i := set_label label i op in
      compose_sites label (fop_compose base_op (FermionicOp_of_label (join label_i))) rest
  end.

Definition _fill_ferm_op_one_body_ints (fermionic_op : FermionicOp) (one_body_integrals : Mat)
    : result FermionicOp :=
  let n := nrows one_body_integrals in
  fold_left (fun acc '(i, j) =>
      let? fermionic_op := acc in
      let? coeff := mat_at one_body_integrals i j in
      if Qeq_bool coeff 0 then Ok fermionic_op else
      let label := repeat "I"%char n in
      let base_op := fop_scale coeff (FermionicOp_of_label (join label)) in
      let? base_op := compose_sites label base_op [(i, "+"%char); (j, "-"%char)] in
      Ok (fop_add fermionic_op base_op))
    (product2 n) (Ok fermionic_op).

Definition _fill_ferm_op_two_body_ints (fermionic_op : FermionicOp) (two_body_integrals : T4)
    : result FermionicOp :=
  let n := d0 two_body_integrals in
  fold_left (fun acc '(i, j, k, l) =>
      let? fermionic_op := acc in
      let? coeff := t4_at two_body_integrals i j k l in
      if Qeq_bool coeff 0 then Ok fermionic_op else
      let label := repeat "I"%char n in
      let base_op := fop_scale coeff (FermionicOp_of_label (join label)) in
      let? base_op := compose_sites label base_op
                        [(i, "+"%char); (k, "+"%char); (l, "-"%char); (j, "-"%char)] in
      Ok (fop_add fermionic_op base_op))
    (product4 n) (Ok fermionic_op).

Definition build_ferm_op_from_ints (one_body_integrals : Mat)
    (two_body_integrals : option T4) : result FermionicOp :=
  let fermionic_op := FermionicOp_of_label (join (repeat "I"%char (nrows one_body_integrals))) in
  let? fermionic_op := _fill_ferm_op_one_body_ints fermionic_op one_body_integrals in
  let? fermionic_op :=
    match two_body_integrals with
    | Some t => _fill_ferm_op_two_body_ints fermionic_op t
    | None => Ok fermionic_op
    end in
  Ok (fop_reduce fermionic_op).

End Builder.

(* ------------------------------------------------------------------ *)
(** ** Concrete arrays, for the examples below *)

(** [np.asarray(l)] for a nested list of rows. *)
Definition mat_of_rows (l : list (list Q)) : Mat :=
  mkMat (length l) (length (hd [] l)) (fun i j => nth j (nth i l []) 0).

(** An [n^4] array given by its entries. *)
Definition t4_of_fun (n : nat) (f : nat -> nat -> nat -> nat -> Q) : T4 := mkT4 n n n n f.

(** An H2-like restricted molecule with two orbitals, in an orthonormal AO
    basis ([mo_coeff] the identity), whose MO integrals are consistent with
    its AO integrals. *)
Definition h2_hcore : Mat := mat_of_rows [[-5#4; 0]; [0; -1#2]].
Definition h2_eri : T4 :=
  t4_of_fun 2 (fun i j k l => if (Nat.eqb i j && Nat.eqb k l)%bool then 1#2 else 1#10).
Definition h2_zdip : Mat := mat_of_rows [[7#10; -1]; [-1; 7#10]].
Definition ident2 : Mat := mat_of_rows [[1; 0]; [0; 1]].
Definition zero2 : Mat := mat_of_rows [[0; 0]; [0; 0]].

Definition h2_molecule (core : list Z) : QMolecule :=
  list_to_map [
    ("num_orbitals", VInt 2); ("num_alpha", VInt 1); ("num_beta", VInt 1);
    ("multiplicity", VInt 1); ("core_orbitals", VList core);
    ("mo_coeff", VMat ident2); ("mo_coeff_b", VNone);
    ("mo_occ", VVec [2; 0]); ("mo_occ_b", VNone);
    ("orbital_energies", VVec [-1#2; 1#2]); ("orbital_energies_b", VNone);
    ("hcore", VMat h2_hcore); ("hcore_b", VNone); ("eri", VT4 h2_eri);
    ("mo_onee_ints", VMat (project ident2 h2_hcore)); ("mo_onee_ints_b", VNone);
    ("mo_eri_ints", VT4 (einsum_4index h2_eri ident2 ident2 ident2 ident2));
    ("mo_eri_ints_ba", VNone); ("mo_eri_ints_bb", VNone);
    ("x_dip_ints", VMat zero2); ("y_dip_ints", VMat zero2); ("z_dip_ints", VMat h2_zdip);
    ("x_dip_mo_ints", VMat zero2); ("x_dip_mo_ints_b", VNone);
    ("y_dip_mo_ints", VMat zero2); ("y_dip_mo_ints_b", VNone);
    ("z_dip_mo_ints", VMat (project ident2 h2_zdip)); ("z_dip_mo_ints_b", VNone);
    ("energy_shift", VDict ∅); ("x_dip_energy_shift", VDict ∅);
    ("y_dip_energy_shift", VDict ∅); ("z_dip_energy_shift", VDict ∅);
    ("kinetic", VNone); ("overlap", VNone)].

Definition config (ne nmo : option Z) (act : option (list Z)) (fc : bool)
    (rm : option (list Z)) : ActiveSpaceTransformer :=
  {| num_electrons := ne; num_molecular_orbitals := nmo; num_alpha := None;
     active_orbitals := act; freeze_core := fc; remove_orbitals := rm |}.

(** Reading results back. *)
Definition mat_attr (q : QMolecule) (name : string) : option Mat :=
  match q !! name with Some (VMat m) => Some m | _ => None end.
Definition t4_attr (q : QMolecule) (name : string) : option T4 :=
  match q !! name with Some (VT4 t) => Some t | _ => None end.
Definition entry_attr (q : QMolecule) (name : string) (i j : nat) : option Q :=
  match mat_attr q name with Some m => Some (entry m i j) | None => None end.
Definition shift_attr (q : QMolecule) (name : string) : option Q :=
  match q !! name with Some (VDict d) => d !! "ActiveSpaceTransformer" | _ => None end.

(** An all-zero [n x n] matrix and an all-zero [n^4] array. *)
Definition zero_mat (n : nat) : Mat := mkMat n n (fun _ _ => 0).
Definition zero_t4 (n : nat) : T4 := t4_of_fun n (fun _ _ _ _ => 0).

(** The (active, inactive) partition [transform] computes on [q_molecule]. *)
Definition transform_partition (self : ActiveSpaceTransformer) (q : QMolecule)
    : result (list Z * list Z) :=
  match (let! '(c, cb, mo_occ_full, occ_total) := _transform_setup in
         _determine_active_space self (bool_decide (is_Some cb)) occ_total) q with
  | (_, Ok (act, inact, _)) => Ok (act, inact)
  | (_, Err e) => Err e
  end.

(** Results that are not a [QiskitNatureError]. *)
Definition NoQNE {A} (r : result A) : Prop := forall msg, r <> Err (QiskitNatureError msg).
Definition MNoQNE {A} (m : M A) : Prop := forall s, NoQNE (m s).2.

(** The Coulomb and exchange terms written as in the specification:
    [J[k,l] = sum_ij eri[i,j,k,l] * D[i,j]] and
    [K[i,l] = sum_jk eri[i,j,k,l] * D[j,k]]. *)
Definition coulomb_spec (eri : T4) (D : Mat) : Mat :=
  mkMat (d2 eri) (d3 eri) (fun k l =>
    qsum (d0 eri) (fun i => qsum (d1 eri) (fun j => tentry eri i j k l * entry D i j))).
Definition exchange_spec (eri : T4) (D : Mat) : Mat :=
  mkMat (d0 eri) (d3 eri) (fun i l =>
    qsum (d1 eri) (fun j => qsum (d2 eri) (fun k => tentry eri i j k l * entry D j k))).

(** The inactive density of the H2-like molecule with orbital 0 doubly
    occupied, a context holding it, and the inactive Fock operator the source
    computes from it. *)
Definition h2_density : Mat :=
  dot (mkMat 2 2 (fun i k => entry ident2 i k * nth k [2; 0] 0)) (transpose ident2).
Definition h2_ctx : Ctx :=
  {| ctx_beta := false; ctx_mo_coeff_active := (ident2, None);
     ctx_mo_coeff_inactive := (ident2, None); ctx_density_inactive := (h2_density, None) |}.
Definition h2_fock : Mat :=
  mat_sub (mat_add h2_hcore (einsum_coulomb h2_eri h2_density))
          (mat_scale (1#2) (einsum_exchange h2_eri h2_density)).

(** [m] leaves every attribute of the caller's object but [core_orbitals] as
    it was. *)
Definition Frame {A} (m : M A) : Prop :=
  forall s k, k <> "core_orbitals" -> (m s).1 !! k = s !! k.

(** The dipole axes: AO matrix, MO matrix and energy-shift attribute. *)
Definition dipole_axes : list (string * string * string) :=
  [("x_dip_ints", "x_dip_mo_ints", "x_dip_energy_shift");
   ("y_dip_ints", "y_dip_mo_ints", "y_dip_energy_shift");
   ("z_dip_ints", "z_dip_mo_ints", "z_dip_energy_shift")].

(** Same shape and numerically equal entries. *)
Definition mat_eqv (A B : Mat) : Prop :=
  nrows A = nrows B /\ ncols A = ncols B /\
  forall i j, (i < nrows A)%nat -> (j < ncols A)%nat -> entry A i j == entry B i j.

Definition t4_eqv (A B : T4) : Prop :=
  d0 A = d0 B /\ d1 A = d1 B /\ d2 A = d2 B /\ d3 A = d3 B /\
  forall i j k l, (i < d0 A)%nat -> (j < d1 A)%nat -> (k < d2 A)%nat -> (l < d3 A)%nat ->
    tentry A i j k l == tentry B i j k l.

(** The one-body AO/MO attribute pairs and the energy-shift attributes that
    [transform] reduces. *)
Definition one_body_pairs : list (string * string) :=
  [("hcore", "mo_onee_ints"); ("x_dip_ints", "x_dip_mo_ints");
   ("y_dip_ints", "y_dip_mo_ints"); ("z_dip_ints", "z_dip_mo_ints")].

Definition shift_names : list string :=
  ["energy_shift"; "x_dip_energy_shift"; "y_dip_energy_shift"; "z_dip_energy_shift"].

(** ** Definitions used by the further properties *)

(** A computation of the state monad that leaves the molecule unchanged. *)
Definition Pure {A} (m : M A) : Prop := forall s, (m s).1 = s.

(** The attributes that [transform] writes into the reduced copy. *)
Definition reduced_attrs : list string :=
  ["num_orbitals"; "num_alpha"; "num_beta"; "mo_coeff"; "mo_coeff_b";
   "orbital_energies"; "orbital_energies_b"; "kinetic"; "overlap";
   "energy_shift"; "hcore"; "hcore_b"; "mo_onee_ints"; "mo_onee_ints_b";
   "mo_eri_ints"; "mo_eri_ints_ba"; "mo_eri_ints_bb";
   "x_dip_energy_shift"; "x_dip_ints"; "x_dip_mo_ints"; "x_dip_mo_ints_b";
   "y_dip_energy_shift"; "y_dip_ints"; "y_dip_mo_ints"; "y_dip_mo_ints_b";
   "z_dip_energy_shift"; "z_dip_ints"; "z_dip_mo_ints"; "z_dip_mo_ints_b"].

(** The occupation vector of [min na nb] doubly, [max na nb - min na nb]
    singly occupied and [n - max na nb] empty orbitals. *)
Definition aufbau_occ (na nb n : nat) : Vec :=
  repeat 2 (Nat.min na nb) ++ repeat 1 (Nat.max na nb - Nat.min na nb) ++ repeat 0 (n - Nat.max na nb).

(** A loop [for x in l: acc = g(acc, x)] whose body propagates an exception
    already raised. *)
Definition Propagates {A X} (g : result A -> X -> result A) : Prop :=
  forall e x, g (Err e) x = Err e.

(** A square matrix equal to its transpose, and a four-index array of equal
    dimensions with the permutational symmetry of real two-electron
    integrals: [(ij|kl) = (ji|kl) = (ij|lk) = (kl|ij)]. *)
Definition mat_symmetric (A : Mat) : Prop :=
  nrows A = ncols A /\
  forall i j, (i < nrows A)%nat -> (j < nrows A)%nat -> entry A i j == entry A j i.
Definition eri_symmetric (T : T4) : Prop :=
  d1 T = d0 T /\ d2 T = d0 T /\ d3 T = d0 T /\
  forall i j k l, (i < d0 T)%nat -> (j < d0 T)%nat -> (k < d0 T)%nat -> (l < d0 T)%nat ->
    tentry T i j k l == tentry T j i k l /\ tentry T i j k l == tentry T i j l k /\
    tentry T i j k l == tentry T k l i j.

(** The fourfold sum over [range(n)]^4. *)
Definition sum4 (n : nat) (f : nat -> nat -> nat -> nat -> Q) : Q :=
  qsum n (fun p => qsum n (fun q => qsum n (fun r => qsum n (fun s => f p q r s)))).

(** Further examples. *)

Definition h2_unrestricted : QMolecule :=
  <["mo_coeff_b" := VMat ident2]> (<["mo_occ_b" := VVec [1; 0]]>
    (<["mo_occ" := VVec [1; 0]]> (h2_molecule []))).
Definition h2_filled : QMolecule :=
  <["num_alpha" := VInt 2]> (<["num_beta" := VInt 2]>
    (<["mo_occ" := VVec [2; 2]]> (h2_molecule []))).
Definition h2_no_occ : QMolecule :=
  <["num_beta" := VInt 0]> (<["mo_occ" := VNone]> (h2_molecule [])).
Definition wide_mat : Mat := mat_of_rows [[1; 2; 3]; [4; 5; 6]].
Definition wide_t4 : T4 := mkT4 2 3 2 2 (fun i j k l => inject_Z (Z.of_nat (i + j + k + l))).

(* ================================================================== *)
(** * Properties *)

Section FoldLemmas.

Lemma fold_left_result_id {X} (f : result FermionicOp -> X -> result FermionicOp)
    (l : list X) (a : FermionicOp) :
  (forall x, In x l -> f (Ok a) x = Ok a) -> fold_left f l (Ok a) = Ok a.
Proof.
  induction l as [|x l IH]; intros H; simpl; [done|].
  rewrite (H x (or_introl eq_refl)). apply IH. intros y Hy. apply H. by right.
Qed.

Lemma in_product2 n i j : In (i, j) (product2 n) -> (i < n)%nat /\ (j < n)%nat.
Proof.
  unfold product2. rewrite in_flat_map. intros (i' & Hi & Hm).
  apply in_map_iff in Hm as (j' & [= -> ->] & Hj).
  apply in_seq in Hi, Hj. lia.
Qed.

Lemma in_product4 n i j k l :
  In (i, j, k, l) (product4 n) -> (i < n)%nat /\ (j < n)%nat /\ (k < n)%nat /\ (l < n)%nat.
Proof.
  unfold product4. rewrite in_flat_map. intros ([i' j'] & Hij & Hm).
  apply in_map_iff in Hm as ([k' l'] & [= -> -> -> ->] & Hkl).
  apply in_product2 in Hij, Hkl. lia.
Qed.

End FoldLemmas.

Lemma fill_one_body_zero (fop_compose : FermionicOp -> FermionicOp -> FermionicOp)
    (op : FermionicOp) (n : nat) :
  _fill_ferm_op_one_body_ints fop_compose op (zero_mat n) = Ok op.
Proof.
  unfold _fill_ferm_op_one_body_ints. apply fold_left_result_id.
  intros [i j] Hin. apply in_product2 in Hin as [Hi Hj]. simpl in Hi, Hj.
  cbv beta iota. unfold mat_at, zero_mat. cbn [nrows ncols entry].
  rewrite (proj2 (Nat.ltb_lt _ _) Hi), (proj2 (Nat.ltb_lt _ _) Hj). done.
Qed.

Lemma fill_two_body_zero (fop_compose : FermionicOp -> FermionicOp -> FermionicOp)
    (op : FermionicOp) (d : nat) :
  _fill_ferm_op_two_body_ints fop_compose op (zero_t4 d) = Ok op.
Proof.
  unfold _fill_ferm_op_two_body_ints. apply fold_left_result_id.
  intros [[[i j] k] l] Hin. apply in_product4 in Hin as (Hi & Hj & Hk & Hl). simpl in Hi, Hj, Hk, Hl.
  cbv beta iota. unfold t4_at, zero_t4, t4_of_fun. cbn [d0 d1 d2 d3 tentry].
  rewrite (proj2 (Nat.ltb_lt _ _) Hi), (proj2 (Nat.ltb_lt _ _) Hj),
    (proj2 (Nat.ltb_lt _ _) Hk), (proj2 (Nat.ltb_lt _ _) Hl). done.
Qed.

(** C4 (code_bug).  For every orbital count [n], building from the all-zero
    [n x n] one-body matrix, with no two-body tensor or with the all-zero
    [n^4] one, returns the identity label with coefficient 1 (the initial
    [FermionicOp('I' * n)]), not a sum without nonzero terms. *)
Theorem build_zero_integrals_keeps_identity
    (fop_compose : FermionicOp -> FermionicOp -> FermionicOp) (n : nat) :
  build_ferm_op_from_ints fop_compose (zero_mat n) None
    = Ok [(join (repeat "I"%char n), 1)] /\
  build_ferm_op_from_ints fop_compose (zero_mat n) (Some (zero_t4 n))
    = Ok [(join (repeat "I"%char n), 1)].
Proof.
  unfold build_ferm_op_from_ints. simpl nrows.
  rewrite fill_one_body_zero. simpl rbind. rewrite fill_two_body_zero. done.
Qed.

(** C8 (amended).  The builder compares no dimensions: an all-zero two-body
    array of any dimension [d] leaves the operator built from the one-body
    matrix alone unchanged, whatever the size of that matrix. *)
Theorem build_ignores_zero_two_body_of_any_size
    (fop_compose : FermionicOp -> FermionicOp -> FermionicOp) (h1 : Mat) (d : nat) :
  build_ferm_op_from_ints fop_compose h1 (Some (zero_t4 d))
    = build_ferm_op_from_ints fop_compose h1 None.
Proof.
  unfold build_ferm_op_from_ints.
  destruct (_fill_ferm_op_one_body_ints _ _ _); simpl; [|done].
  by rewrite fill_two_body_zero.
Qed.

(** C8 (counterexample).  A [2 x 2] one-body matrix with a two-body array of
    dimension 3 is built into an operator sum; no error is raised. *)
Lemma build_mismatched_dimensions_succeeds :
  ~ (forall (fop_compose : FermionicOp -> FermionicOp -> FermionicOp) (h1 : Mat) (h2 : T4),
        nrows h1 <> d0 h2 -> exists e, build_ferm_op_from_ints fop_compose h1 (Some h2) = Err e).
Proof.
  intros H.
  destruct (H (fun a _ => a) (zero_mat 2) (zero_t4 3)) as [e He]; [simpl; lia|].
  rewrite build_ignores_zero_two_body_of_any_size in He.
  rewrite (proj1 (build_zero_integrals_keeps_identity _ 2)) in He. discriminate.
Qed.






(** C10 (counterexample).  [freeze_core=True, remove_orbitals=[5]] on the
    two-orbital molecule: the list is not accepted, the occupation lookup
    raises [IndexError]. *)
Lemma freeze_core_out_of_range_removal_fails :
  (transform (config None None None true (Some [5%Z])) (h2_molecule [])).2 = Err IndexError.
Proof. vm_compute. reflexivity. Qed.

(* ------------------------------------------------------------------ *)
(** ** Reasoning about the monads *)

Lemma rbind_ok {A B} (m : result A) (k : A -> result B) a :
  m = Ok a -> rbind m k = k a.
Proof. by intros ->. Qed.

Lemma rbind_ok_inv {A B} (m : result A) (k : A -> result B) b :
  rbind m k = Ok b -> exists a, m = Ok a /\ k a = Ok b.
Proof. destruct m as [a|e]; simpl; [eauto | discriminate]. Qed.

Lemma mbind_ok {A B} (m : M A) (k : A -> M B) s s1 a :
  m s = (s1, Ok a) -> mbind m k s = k a s1.
Proof. intros H. unfold mbind. by rewrite H. Qed.

Lemma mbind_err {A B} (m : M A) (k : A -> M B) s s1 e :
  m s = (s1, Err e) -> mbind m k s = (s1, Err e).
Proof. intros H. unfold mbind. by rewrite H. Qed.

Lemma mbind_ok_inv {A B} (m : M A) (k : A -> M B) s s' b :
  mbind m k s = (s', Ok b) -> exists s1 a, m s = (s1, Ok a) /\ k a s1 = (s', Ok b).
Proof.
  unfold mbind. destruct (m s) as [s1 [a|e]]; [eauto | intros [=]].
Qed.

Lemma lift_ok_inv {A} (r : result A) s s' a :
  lift r s = (s', Ok a) -> s' = s /\ r = Ok a.
Proof. unfold lift. by intros [= -> ->]. Qed.

Lemma mattr_ok_inv (name : string) s s' v :
  mattr name s = (s', Ok v) -> s' = s /\ s !! name = Some v.
Proof.
  unfold mattr, getattr. destruct (s !! name); by intros [= -> ->].
Qed.


Lemma NoQNE_ok {A} (a : A) : NoQNE (Ok a).
Proof. intros ? [=]. Qed.

Lemma NoQNE_err {A} (e : PyErr) : (forall msg, e <> QiskitNatureError msg) -> NoQNE (@Err A e).
Proof. intros H msg [= ->]. by eapply H. Qed.

Lemma NoQNE_bind {A B} (m : result A) (k : A -> result B) :
  NoQNE m -> (forall a, NoQNE (k a)) -> NoQNE (rbind m k).
Proof. intros Hm Hk msg. destruct m; simpl; [apply Hk|]. intros [= ->]. by apply (Hm msg). Qed.

Lemma NoQNE_rmap {A B} (f : A -> result B) (l : list A) :
  (forall x, NoQNE (f x)) -> NoQNE (rmap f l).
Proof.
  intros Hf. induction l as [|x l IH]; simpl; [apply NoQNE_ok|].
  apply NoQNE_bind; [done|]. intros y. apply NoQNE_bind; [done|]. intros. apply NoQNE_ok.
Qed.

Lemma NoQNE_rfilter {A} (p : A -> result bool) (l : list A) :
  (forall x, NoQNE (p x)) -> NoQNE (rfilter p l).
Proof.
  intros Hp. induction l as [|x l IH]; simpl; [apply NoQNE_ok|].
  apply NoQNE_bind; [done|]. intros y. apply NoQNE_bind; [done|]. intros. apply NoQNE_ok.
Qed.

Lemma MNoQNE_ret {A} (a : A) : MNoQNE (mret a).
Proof. intros s. apply NoQNE_ok. Qed.

Lemma MNoQNE_lift {A} (r : result A) : NoQNE r -> MNoQNE (lift r).
Proof. by intros H s. Qed.

Lemma MNoQNE_get : MNoQNE mget.
Proof. intros s. apply NoQNE_ok. Qed.

Lemma MNoQNE_put s' : MNoQNE (mput s').
Proof. intros s. apply NoQNE_ok. Qed.

Lemma MNoQNE_bind {A B} (m : M A) (k : A -> M B) :
  MNoQNE m -> (forall a, MNoQNE (k a)) -> MNoQNE (mbind m k).
Proof.
  intros Hm Hk s msg. unfold mbind.
  destruct (m s) as [s1 [a|e]] eqn:E; [apply Hk|].
  simpl. intros [= ->]. apply (Hm s msg). by rewrite E.
Qed.

Lemma NoQNE_transfer {A B} (x : result A) (e : PyErr) :
  x = Err e -> NoQNE x -> NoQNE (@Err B e).
Proof. intros -> H msg [= ->]. by apply (H msg). Qed.

Ltac case_goal :=
  match goal with |- context [match ?x with _ => _ end] => destruct x eqn:? end.

Create HintDb noqne.

Ltac noqne :=
  repeat first
    [ progress cbv beta iota zeta
    | apply NoQNE_ok
    | apply NoQNE_err; intros ? ?; discriminate
    | solve [eauto with noqne]
    | apply NoQNE_bind; [|intros ?]
    | apply NoQNE_rmap; intros ?
    | apply NoQNE_rfilter; intros ?
    | apply MNoQNE_ret | apply MNoQNE_get | apply MNoQNE_put
    | apply MNoQNE_lift
    | apply MNoQNE_bind; [|intros ?]
    | match goal with H : ?x = Err ?e |- NoQNE (Err ?e) => apply (NoQNE_transfer _ _ H) end
    | case_goal ].

Lemma NoQNE_py_index len i : NoQNE (py_index len i).
Proof. unfold py_index. noqne. Qed.
Lemma NoQNE_getattr obj n : NoQNE (getattr obj n).
Proof. unfold getattr. noqne. Qed.
Lemma NoQNE_setattr obj n v : NoQNE (setattr obj n v).
Proof. unfold setattr. noqne. Qed.
Lemma NoQNE_as_int v : NoQNE (as_int v).
Proof. unfold as_int. noqne. Qed.
Lemma NoQNE_as_mat v : NoQNE (as_mat v).
Proof. unfold as_mat. noqne. Qed.
Lemma NoQNE_as_mat_opt v : NoQNE (as_mat_opt v).
Proof. unfold as_mat_opt. noqne. Qed.
Lemma NoQNE_as_vec_opt v : NoQNE (as_vec_opt v).
Proof. unfold as_vec_opt. noqne. Qed.
Lemma NoQNE_as_list v : NoQNE (as_list v).
Proof. unfold as_list. noqne. Qed.
Lemma NoQNE_as_dict v : NoQNE (as_dict v).
Proof. unfold as_dict. noqne. Qed.
Lemma NoQNE_the {A} (o : option A) : NoQNE (the o).
Proof. unfold the. noqne. Qed.
Lemma NoQNE_py_max l : NoQNE (py_max l).
Proof. unfold py_max. noqne. Qed.
Lemma MNoQNE_mattr n : MNoQNE (mattr n).
Proof. intros s. apply NoQNE_getattr. Qed.
#[export] Hint Resolve NoQNE_py_index NoQNE_getattr NoQNE_setattr NoQNE_as_int NoQNE_as_mat
  NoQNE_as_mat_opt NoQNE_as_vec_opt NoQNE_as_list NoQNE_as_dict NoQNE_the NoQNE_py_max
  MNoQNE_mattr : noqne.

Lemma NoQNE_vec_at v i : NoQNE (vec_at v i).
Proof. unfold vec_at. noqne. Qed.
Lemma NoQNE_vec_select v l : NoQNE (vec_select v l).
Proof. unfold vec_select. noqne. Qed.
Lemma NoQNE_col_select A l : NoQNE (col_select A l).
Proof. unfold col_select. noqne. Qed.
Lemma NoQNE_vec_add a b : NoQNE (vec_add a b).
Proof. unfold vec_add. noqne. Qed.
Lemma NoQNE_mat_mul_row A v : NoQNE (mat_mul_row A v).
Proof. unfold mat_mul_row. noqne. Qed.
Lemma NoQNE_py_truthy v : NoQNE (py_truthy v).
Proof. unfold py_truthy. noqne. Qed.
#[export] Hint Resolve NoQNE_vec_at NoQNE_vec_select NoQNE_col_select NoQNE_vec_add
  NoQNE_mat_mul_row NoQNE_py_truthy : noqne.
Lemma NoQNE_py_or a b : NoQNE (py_or a b).
Proof. unfold py_or. noqne. Qed.
Lemma NoQNE_py_add a b : NoQNE (py_add a b).
Proof. unfold py_add. noqne. Qed.
#[export] Hint Resolve NoQNE_py_or NoQNE_py_add : noqne.

Lemma NoQNE_extract beta q : NoQNE (_extract_mo_occupation_vector beta q).
Proof. unfold _extract_mo_occupation_vector. noqne. Qed.
Lemma NoQNE_mo_occ_total beta o : NoQNE (mo_occ_total beta o).
Proof. unfold mo_occ_total. noqne. Qed.
Lemma NoQNE_density beta c o : NoQNE (_compute_inactive_density_matrix beta c o).
Proof. unfold _compute_inactive_density_matrix. noqne. Qed.
Lemma NoQNE_fock ctx h e : NoQNE (_compute_inactive_fock_op ctx h e).
Proof. unfold _compute_inactive_fock_op. noqne. Qed.
Lemma NoQNE_energy ctx h f : NoQNE (_compute_inactive_energy ctx h f).
Proof. unfold _compute_inactive_energy. noqne. Qed.
Lemma NoQNE_active_integrals ctx f e : NoQNE (_compute_active_integrals ctx f e).
Proof. unfold _compute_active_integrals. noqne. Qed.
#[export] Hint Resolve NoQNE_extract NoQNE_mo_occ_total NoQNE_density NoQNE_fock
  NoQNE_energy NoQNE_active_integrals : noqne.

Lemma NoQNE_reduce ctx q r s a1 m1 a2 m2 :
  NoQNE (_reduce_to_active_space ctx q r s a1 m1 a2 m2).
Proof. unfold _reduce_to_active_space. noqne. Qed.
#[export] Hint Resolve NoQNE_reduce : noqne.

Lemma MNoQNE_setup : MNoQNE _transform_setup.
Proof. unfold _transform_setup. noqne. Qed.

Lemma MNoQNE_transform_reduce self c cb o act inact np :
  MNoQNE (_transform_reduce self c cb o act inact np).
Proof. unfold _transform_reduce. noqne. Qed.
#[export] Hint Resolve MNoQNE_setup MNoQNE_transform_reduce : noqne.

Ltac mstep := cbv beta iota zeta delta [mbind mattr getattr lift mret mget mput rbind as_int as_list].

Lemma rmap_ok {A B} (f : A -> result B) (l : list A) :
  Forall (fun x => exists y, f x = Ok y) l -> exists ys, rmap f l = Ok ys.
Proof.
  induction 1 as [|x l [y Hy] _ [ys Hys]]; simpl; [eauto|].
  rewrite Hy; simpl. rewrite Hys. eauto.
Qed.

Lemma rmap_err {A B} (f : A -> result B) (l : list A) e :
  (forall x, (exists y, f x = Ok y) \/ f x = Err e) ->
  Exists (fun x => f x = Err e) l -> rmap f l = Err e.
Proof.
  intros Hf. induction 1 as [x l Hx|x l _ IH]; simpl.
  - by rewrite Hx.
  - destruct (Hf x) as [[y Hy]|Hy]; rewrite Hy; simpl; [by rewrite IH|done].
Qed.

Lemma vec_at_cases v i :
  (exists y, vec_at v i = Ok y) \/ vec_at v i = Err IndexError.
Proof.
  unfold vec_at, py_index. repeat case_match; simpl; eauto.
Qed.

Lemma vec_at_in_range v i :
  (- Z.of_nat (length v) <= i < Z.of_nat (length v))%Z -> exists y, vec_at v i = Ok y.
Proof.
  intros Hi. unfold vec_at, py_index.
  destruct ((0 <=? i)%Z && (i <? Z.of_nat (length v))%Z) eqn:E1; simpl; [eauto|].
  destruct ((- Z.of_nat (length v) <=? i)%Z && (i <? 0)%Z) eqn:E2; simpl; [eauto|].
  apply andb_false_iff in E1, E2. lia.
Qed.

Lemma vec_at_out_of_range v i :
  ~ (- Z.of_nat (length v) <= i < Z.of_nat (length v))%Z -> vec_at v i = Err IndexError.
Proof.
  intros Hi. unfold vec_at, py_index.
  destruct ((0 <=? i)%Z && (i <? Z.of_nat (length v))%Z) eqn:E1.
  { apply andb_true_iff in E1. lia. }
  destruct ((- Z.of_nat (length v) <=? i)%Z && (i <? 0)%Z) eqn:E2; [|done].
  apply andb_true_iff in E2. lia.
Qed.

(** C10 (amended).  With [freeze_core] set, [transform] never raises a
    [QiskitNatureError]: none of the electron or orbital validations runs.  The
    entries of [core_orbitals] and [remove_orbitals] are checked neither for
    range nor for occupancy; the only check is the occupation lookup
    [self._mo_occ_total[o]], which succeeds for every [o] in
    [[-len, len)] (the inactive list is then [core_orbitals + remove_orbitals]
    and the active list the other orbitals of [range(num_orbitals)]) and raises
    [IndexError] as soon as one entry lies outside it. *)
Theorem freeze_core_never_validates (self : ActiveSpaceTransformer)
    (Hfc : freeze_core self = true) :
  (forall q msg, (transform self q).2 <> Err (QiskitNatureError msg)) /\
  (forall beta occ q na nb core n mult,
     q !! "num_alpha" = Some (VInt na) -> q !! "num_beta" = Some (VInt nb) ->
     q !! "core_orbitals" = Some (VList core) -> q !! "num_orbitals" = Some (VInt n) ->
     q !! "multiplicity" = Some (VInt mult) ->
     let inact := core ++ default [] (remove_orbitals self) in
     (Forall (fun o => - Z.of_nat (length occ) <= o < Z.of_nat (length occ))%Z inact ->
        exists q' np, _determine_active_space self beta occ q
          = (q', Ok (filter (fun o => negb (py_in o inact)) (py_range_from 0 n), inact, np))) /\
     (Exists (fun o => ~ (- Z.of_nat (length occ) <= o < Z.of_nat (length occ))%Z) inact ->
        (_determine_active_space self beta occ q).2 = Err IndexError)).
Proof.
  split.
  - intros q. unfold transform, _check_configuration. rewrite Hfc. simpl.
    revert q. change (MNoQNE (let! '(c, cb, mo_occ_full, occ_total) := _transform_setup in
      let! '(a, i, np) := _determine_active_space self (bool_decide (is_Some cb)) occ_total in
      _transform_reduce self c cb mo_occ_full a i np)).
    unfold _determine_active_space. rewrite Hfc. noqne.
  - intros beta occ q na nb core n mult Hna Hnb Hcore Hn Hmult inact.
    unfold _determine_active_space. rewrite Hfc.
    destruct (remove_orbitals self) as [r|]; simpl in inact |- *;
    cbv beta iota zeta delta [mbind mattr getattr lift mret mget mput rbind as_int as_list];
    rewrite Hna, Hnb, Hcore;
    cbv beta iota zeta delta [mbind mattr getattr lift mret mget mput rbind as_int as_list].
    all: rewrite ?lookup_insert_ne by done; rewrite Hn;
      cbv beta iota zeta delta [mbind mattr getattr lift mret mget mput rbind as_int as_list];
      rewrite ?lookup_insert_ne by done; rewrite Hmult;
      cbv beta iota zeta delta [mbind mattr getattr lift mret mget mput rbind as_int as_list].
    all: subst inact; rewrite ?app_nil_r; split; intros H.
    1,3: destruct (rmap_ok (vec_at occ) _ (Forall_impl _ _ _ H (fun o Ho => vec_at_in_range occ o Ho)))
           as [ys Hys]; rewrite Hys; eauto.
    all: rewrite (rmap_err _ _ IndexError); [done| |]; [intros x; apply vec_at_cases|].
    all: exact (Exists_impl _ _ _ H (fun o Ho => vec_at_out_of_range occ o Ho)).
Qed.

Lemma freeze_core_never_validates_witness :
  freeze_core (config None None None true (Some [1%Z])) = true /\
  exists q' np,
    _determine_active_space (config None None None true (Some [1%Z])) false [2; 0]
      (h2_molecule [0%Z]) = (q', Ok ([], [0; 1]%Z, np)).
Proof.
  split; [reflexivity|].
  destruct (freeze_core_never_validates (config None None None true (Some [1%Z])) eq_refl)
    as [_ H].
  destruct (H false [2; 0] (h2_molecule [0%Z]) 1%Z 1%Z [0%Z] 2%Z 1%Z) as [Hin _];
    try (vm_compute; reflexivity).
  destruct Hin as (q' & np & E); [repeat constructor; simpl; lia|].
  exists q', np. rewrite E. reflexivity.
Defined.

Lemma setup_ok q setup :
  (_transform_setup q).2 = Ok setup -> _transform_setup q = (q, Ok setup).
Proof.
  unfold _transform_setup. mstep.
  repeat (case_match; mstep; try discriminate); simpl; by intros [= ->].
Qed.

Lemma validate_electrons_neg k :
  (k < 0)%Z -> _validate_num_electrons k = Err (QiskitNatureError "More electrons requested than available.").
Proof. intros H. unfold _validate_num_electrons. by rewrite (proj2 (Z.ltb_lt _ _) H). Qed.

Lemma validate_electrons_odd k :
  (0 <= k)%Z -> Z.odd k = true ->
  _validate_num_electrons k = Err (QiskitNatureError "The number of inactive electrons must be even.").
Proof.
  intros H1 H2. unfold _validate_num_electrons.
  rewrite (proj2 (Z.ltb_ge _ _) H1).
  rewrite Zmod_odd, H2. reflexivity.
Qed.

Lemma determine_electrons_err self beta occ q na nb ne e :
  freeze_core self = false -> num_electrons self = Some ne ->
  q !! "num_alpha" = Some (VInt na) -> q !! "num_beta" = Some (VInt nb) ->
  (num_alpha self = None -> exists mult, q !! "multiplicity" = Some (VInt mult)) ->
  _validate_num_electrons (na + nb - ne) = Err e ->
  _determine_active_space self beta occ q = (q, Err e).
Proof.
  intros Hfc Hne Hna Hnb Hmult Hv.
  unfold _determine_active_space. rewrite Hfc, Hne. mstep. rewrite Hna, Hnb. mstep.
  destruct (num_alpha self) as [a|]; mstep.
  - rewrite Hv. reflexivity.
  - destruct (Hmult eq_refl) as [mult Hm]. rewrite Hm. mstep. rewrite Hv. reflexivity.
Qed.



Lemma fold_max_ge (l : list Z) x : (x <= fold_left Z.max l x)%Z /\ Forall (fun o => o <= fold_left Z.max l x)%Z l.
Proof.
  revert x. induction l as [|y l IH]; intros x; simpl; [split; [lia|constructor]|].
  destruct (IH (Z.max x y)) as [H1 H2]. split; [lia|]. constructor; [lia|done].
Qed.

Lemma fold_max_in (l : list Z) x : fold_left Z.max l x = x \/ In (fold_left Z.max l x) l.
Proof.
  revert x. induction l as [|y l IH]; intros x; simpl; [by left|].
  destruct (IH (Z.max x y)) as [H|H]; [|by right; right].
  rewrite H. destruct (Z.max_spec x y) as [[_ ->]|[_ ->]]; [right; left|left]; done.
Qed.

Lemma py_max_exists l mx n :
  py_max l = Ok mx -> (n <= mx)%Z <-> Exists (fun o => n <= o)%Z l.
Proof.
  destruct l as [|x l]; simpl; [discriminate|]. intros [= <-].
  destruct (fold_max_ge l x) as [H1 H2]. split.
  - intros H. destruct (fold_max_in l x) as [E|E].
    + left. lia.
    + right. apply List.Exists_exists. eexists; split; [exact E|lia].
  - intros H. inversion H as [? ? Hx|? ? Hl]; subst; [lia|].
    apply List.Exists_exists in Hl as (o & Ho & Hno). rewrite List.Forall_forall in H2.
    specialize (H2 o Ho). lia.
Qed.

Lemma py_index_nonneg len o : (0 <= o < Z.of_nat len)%Z -> py_index len o = Ok (Z.to_nat o).
Proof.
  intros H. unfold py_index.
  rewrite (proj2 (Z.leb_le _ _) (proj1 H)), (proj2 (Z.ltb_lt _ _) (proj2 H)). done.
Qed.

Lemma vec_select_nonneg v l :
  Forall (fun o => 0 <= o < Z.of_nat (length v))%Z l ->
  vec_select v l = Ok (map (fun o => nth (Z.to_nat o) v 0) l).
Proof.
  intros H. unfold vec_select.
  assert (E : rmap (py_index (length v)) l = Ok (map Z.to_nat l)).
  { induction H as [|o l Ho _ IH]; simpl; [done|].
    rewrite py_index_nonneg by done. simpl. by rewrite IH. }
  rewrite E. simpl. by rewrite map_map.
Qed.



Lemma mbind_noqne {A B} (m : M A) (k : A -> M B) s :
  NoQNE (m s).2 -> (forall a, MNoQNE (k a)) -> NoQNE (mbind m k s).2.
Proof.
  intros Hm Hk msg. unfold mbind. destruct (m s) as [s1 [a|e]]; [apply Hk|].
  simpl in *. intros [= ->]. by apply (Hm msg).
Qed.

Lemma determine_orbitals_err self beta occ q na nb ne e :
  freeze_core self = false -> num_electrons self = Some ne ->
  q !! "num_alpha" = Some (VInt na) -> q !! "num_beta" = Some (VInt nb) ->
  (num_alpha self = None -> exists mult, q !! "multiplicity" = Some (VInt mult)) ->
  _validate_num_electrons (na + nb - ne) = Ok tt ->
  _validate_num_orbitals self occ (na + nb - ne) q = Err e ->
  _determine_active_space self beta occ q = (q, Err e).
Proof.
  intros Hfc Hne Hna Hnb Hmult Hv Ho.
  unfold _determine_active_space. rewrite Hfc, Hne. mstep. rewrite Hna, Hnb. mstep.
  destruct (num_alpha self) as [a|]; mstep.
  - rewrite Hv. mstep. rewrite Ho. reflexivity.
  - destruct (Hmult eq_refl) as [mult Hm]. rewrite Hm. mstep. rewrite Hv. mstep. rewrite Ho. reflexivity.
Qed.

Lemma determine_orbitals_ok self beta occ q na nb ne :
  freeze_core self = false -> num_electrons self = Some ne ->
  q !! "num_alpha" = Some (VInt na) -> q !! "num_beta" = Some (VInt nb) ->
  (num_alpha self = None -> exists mult, q !! "multiplicity" = Some (VInt mult)) ->
  _validate_num_electrons (na + nb - ne) = Ok tt ->
  _validate_num_orbitals self occ (na + nb - ne) q = Ok tt ->
  NoQNE (_determine_active_space self beta occ q).2.
Proof.
  intros Hfc Hne Hna Hnb Hmult Hv Ho.
  unfold _determine_active_space. rewrite Hfc, Hne. mstep. rewrite Hna, Hnb. mstep.
  destruct (num_alpha self) as [a|]; mstep.
  - rewrite Hv. mstep. rewrite Ho. mstep. noqne.
  - destruct (Hmult eq_refl) as [mult Hm]. rewrite Hm. mstep. rewrite Hv. mstep. rewrite Ho. mstep. noqne.
Qed.

Lemma transform_after_setup self q setup :
  _check_configuration self = true ->
  (_transform_setup q).2 = Ok setup ->
  transform self q =
    (let '(c, cb, mo_occ_full, occ_total) := setup in
     let! '(a, i, np) := _determine_active_space self (bool_decide (is_Some cb)) occ_total in
     _transform_reduce self c cb mo_occ_full a i np) q.
Proof.
  intros Hc Hs. unfold transform. rewrite Hc. simpl.
  rewrite (mbind_ok _ _ _ _ _ (setup_ok _ _ Hs)). by destruct setup as [[[c cb] o] occ].
Qed.

Lemma validate_explicit_cases self occ k q act n ne :
  q !! "num_orbitals" = Some (VInt n) -> active_orbitals self = Some act ->
  num_electrons self = Some ne ->
  act <> [] -> Forall (fun o => 0 <= o)%Z act -> Z.of_nat (length occ) = n ->
  let occ_sum := py_sum (map (fun o => nth (Z.to_nat o) occ 0) act) in
  (num_molecular_orbitals self <> Some (Z.of_nat (length act)) ->
     _validate_num_orbitals self occ k q = Err (QiskitNatureError msg_active_count)) /\
  (num_molecular_orbitals self = Some (Z.of_nat (length act)) ->
     Exists (fun o => n <= o)%Z act ->
     _validate_num_orbitals self occ k q = Err (QiskitNatureError msg_more_orbitals)) /\
  (num_molecular_orbitals self = Some (Z.of_nat (length act)) ->
     Forall (fun o => o < n)%Z act -> ~ occ_sum == inject_Z ne ->
     _validate_num_orbitals self occ k q = Err (QiskitNatureError msg_active_electrons)) /\
  (num_molecular_orbitals self = Some (Z.of_nat (length act)) ->
     Forall (fun o => o < n)%Z act -> occ_sum == inject_Z ne ->
     _validate_num_orbitals self occ k q = Ok tt).
Proof.
  intros Hn Hact Hne Hnil Hpos Hlen occ_sum.
  unfold _validate_num_orbitals, getattr. rewrite Hn. simpl. rewrite Hact.
  destruct (py_max act) as [mx|e] eqn:Hmx; [|destruct act; [done|discriminate]].
  assert (Hsel : Forall (fun o => o < n)%Z act ->
                 vec_select occ act = Ok (map (fun o => nth (Z.to_nat o) occ 0) act)).
  { intros Hlt. apply vec_select_nonneg. rewrite List.Forall_forall in Hpos, Hlt |- *.
    intros o Ho. specialize (Hpos o Ho). specialize (Hlt o Ho). lia. }
  assert (Hmax : Forall (fun o => o < n)%Z act -> (mx >=? n)%Z = false).
  { intros Hlt. rewrite Z.geb_leb. apply Z.leb_gt.
    destruct (Z.lt_ge_cases mx n) as [|Hge]; [done|]. exfalso.
    apply (py_max_exists _ _ n Hmx) in Hge.
    apply List.Exists_exists in Hge as (o & Ho & Hno). rewrite List.Forall_forall in Hlt.
    specialize (Hlt o Ho). lia. }
  split; [|split; [|split]].
  - intros Hm. destruct (num_molecular_orbitals self) as [m|]; [|done]. simpl.
    destruct (m =? Z.of_nat (length act))%Z eqn:E; [|done].
    apply Z.eqb_eq in E. by subst.
  - intros Hm Hex. rewrite Hm, Z.eqb_refl. simpl.
    apply (py_max_exists _ _ n Hmx) in Hex. rewrite Z.geb_leb. apply Z.leb_le in Hex. by rewrite Hex.
  - intros Hm Hlt Hsum. rewrite Hm, Z.eqb_refl. simpl. rewrite (Hmax Hlt), (Hsel Hlt). simpl.
    rewrite Hne. simpl. destruct (Qeq_bool _ _) eqn:E; [|done].
    apply Qeq_bool_iff in E. contradiction.
  - intros Hm Hlt Hsum. rewrite Hm, Z.eqb_refl. simpl. rewrite (Hmax Hlt), (Hsel Hlt). simpl.
    rewrite Hne. simpl. apply Qeq_bool_iff in Hsum. unfold occ_sum in Hsum. by rewrite Hsum.
Qed.



Ltac mstep_in H := cbv beta iota zeta delta [mbind mattr getattr lift mret mget mput rbind as_int as_list] in H.

Ltac inv_matches :=
  repeat match goal with
  | H : Err _ = Ok _ |- _ => discriminate H
  | H : true = false |- _ => discriminate H
  | H : false = true |- _ => discriminate H
  | H : (_, Err _) = (_, Ok _) |- _ => discriminate H
  | H : Ok _ = Ok _ |- _ => injection H as H; try subst
  | H : (_, _) = (_, _) |- _ => injection H as H; try subst
  | H : context [match ?x with _ => _ end] |- _ =>
      lazymatch type of H with _ = _ => destruct x eqn:?; mstep_in H end
  end.

Lemma validate_electrons_ok k u : _validate_num_electrons k = Ok u -> (0 <= k)%Z /\ (k mod 2 = 0)%Z.
Proof.
  unfold _validate_num_electrons.
  destruct (k <? 0)%Z eqn:E1; [discriminate|]. destruct (k mod 2 =? 0)%Z eqn:E2; [|discriminate].
  intros _. apply Z.ltb_ge in E1. apply Z.eqb_eq in E2. lia.
Qed.

Lemma validate_default_ok self occ k q u :
  active_orbitals self = None -> _validate_num_orbitals self occ k q = Ok u ->
  exists m n, num_molecular_orbitals self = Some m /\ q !! "num_orbitals" = Some (VInt n) /\
    (k / 2 + m <= n)%Z.
Proof.
  intros Hact H. unfold _validate_num_orbitals, getattr in H. rewrite Hact in H.
  mstep_in H. inv_matches. do 2 eexists. split; [done|]. split; [done|].
  rewrite Z.gtb_ltb in Heqb. apply Z.ltb_ge in Heqb. lia.
Qed.

Lemma validate_explicit_ok self occ k q l u :
  active_orbitals self = Some l -> _validate_num_orbitals self occ k q = Ok u ->
  num_molecular_orbitals self = Some (Z.of_nat (length l)) /\
  exists n, q !! "num_orbitals" = Some (VInt n) /\ Forall (fun o => o < n)%Z l.
Proof.
  intros Hact H. unfold _validate_num_orbitals, getattr in H. rewrite Hact in H.
  mstep_in H. inv_matches.
  match goal with
  | Hm : negb (?z =? Z.of_nat (length l))%Z = false, Hmx : py_max l = Ok ?mx,
    Hge : (?mx >=? ?n)%Z = false |- _ =>
      split; [apply negb_false_iff, Z.eqb_eq in Hm; by subst|];
      exists n; split; [done|];
      apply List.Forall_forall; intros o Ho;
      destruct (Z.lt_ge_cases o n) as [|Hon]; [done|]; exfalso;
      assert (Hex : Exists (fun x => n <= x)%Z l) by (apply List.Exists_exists; eauto);
      apply (py_max_exists _ _ n Hmx) in Hex; rewrite Z.geb_leb in Hge;
      apply Z.leb_gt in Hge; lia
  end.
Qed.

Lemma rfilter_ok_in {A} (p : A -> result bool) l r x :
  rfilter p l = Ok r -> In x r -> In x l /\ p x = Ok true.
Proof.
  revert r. induction l as [|y l IH]; simpl; intros r H Hx.
  - injection H as <-. done.
  - destruct (p y) as [b|] eqn:Hp; simpl in H; [|discriminate].
    destruct (rfilter p l) as [r'|] eqn:Hr; simpl in H; [|discriminate].
    injection H as <-. destruct b.
    + destruct Hx as [<-|Hx]; [by split; [left|]|].
      destruct (IH r' eq_refl Hx). split; [by right|done].
    + destruct (IH r' eq_refl Hx). split; [by right|done].
Qed.

Lemma py_in_In x l : py_in x l = true <-> In x l.
Proof.
  unfold py_in. rewrite existsb_exists. split.
  - intros (y & Hy & E). apply Z.eqb_eq in E. by subst.
  - intros H. exists x. split; [done|]. apply Z.eqb_refl.
Qed.

Lemma determine_freeze_inv self beta occ q q' act inact np :
  freeze_core self = true ->
  _determine_active_space self beta occ q = (q', Ok (act, inact, np)) ->
  exists n, q !! "num_orbitals" = Some (VInt n) /\
    act = filter (fun o => negb (py_in o inact)) (py_range_from 0 n).
Proof.
  intros Hfc H. unfold _determine_active_space in H. rewrite Hfc in H. mstep_in H. inv_matches.
  all: rewrite ?lookup_insert_ne in * by done.
  all: eexists; split; [eassumption|reflexivity].
Qed.

Lemma determine_default_inv self beta occ q q' act inact np :
  freeze_core self = false -> active_orbitals self = None ->
  _determine_active_space self beta occ q = (q', Ok (act, inact, np)) ->
  exists k m n, num_molecular_orbitals self = Some m /\ q !! "num_orbitals" = Some (VInt n) /\
    (0 <= k)%Z /\ (k + m <= n)%Z /\ inact = py_range_from 0 k /\ act = py_range_from k m.
Proof.
  intros Hfc Hact H. unfold _determine_active_space in H. rewrite Hfc, Hact in H. mstep_in H.
  inv_matches.
  all: match goal with
       | Hv : _validate_num_electrons ?k = Ok _, Ho : _validate_num_orbitals _ _ ?k _ = Ok _ |- _ =>
           apply validate_electrons_ok in Hv as [Hk _];
           apply (validate_default_ok _ _ _ _ _ Hact) in Ho as (m & n & Hm & Hn & Hle)
       end.
  all: match goal with
       | Hm : num_molecular_orbitals ?s = Some ?m, Hm' : num_molecular_orbitals ?s = Some ?m' |- _ =>
           assert (m = m') by congruence; subst m'
       end.
  all: match goal with Hle : (?k + ?m <= ?n)%Z |- _ => exists k, m, n end.
  all: split; [done|]; split; [assumption|]; split; [apply Z.div_pos; lia|].
  all: split; [assumption|]; split; reflexivity.
Qed.

Lemma determine_explicit_inv self beta occ q q' act inact np l :
  freeze_core self = false -> active_orbitals self = Some l ->
  _determine_active_space self beta occ q = (q', Ok (act, inact, np)) ->
  act = l /\ num_molecular_orbitals self = Some (Z.of_nat (length l)) /\
  (exists n, q !! "num_orbitals" = Some (VInt n) /\ Forall (fun o => o < n)%Z l) /\
  (forall o, In o inact -> ~ In o l).
Proof.
  intros Hfc Hact H. unfold _determine_active_space in H. rewrite Hfc, Hact in H. mstep_in H.
  inv_matches.
  all: match goal with
       | Ho : _validate_num_orbitals _ _ _ _ = Ok _ |- _ =>
           apply (validate_explicit_ok _ _ _ _ _ _ Hact) in Ho as [Hm Hn]
       end.
  all: split; [reflexivity|]; split; [assumption|]; split; [assumption|].
  all: intros o Ho Hin.
  all: match goal with
       | Hr : rfilter _ _ = Ok _ |- _ => destruct (rfilter_ok_in _ _ _ _ Hr Ho) as [_ Hp]
       end.
  all: cbv beta in Hp; rewrite (proj2 (py_in_In _ _) Hin) in Hp; discriminate.
Qed.

Lemma seqZ_In a n x : In x (py_range_from a n) <-> (a <= x < a + n)%Z.
Proof. unfold py_range_from. rewrite <- list_elem_of_In. apply elem_of_seqZ. Qed.



Lemma qsum_ext n f g : (forall k, (k < n)%nat -> f k == g k) -> qsum n f == qsum n g.
Proof.
  induction n as [|n IH]; intros H; simpl; [reflexivity|].
  rewrite IH by (intros; apply H; lia). rewrite (H n) by lia. reflexivity.
Qed.

Lemma mat_mul_row_scaled A v B :
  mat_mul_row A v = Ok B ->
  ncols B = ncols A /\ exists w : nat -> Q, forall i k, entry B i k == entry A i k * w k.
Proof.
  unfold mat_mul_row. destruct (decide (length v = ncols A)).
  - intros [= <-]. split; [done|]. exists (fun k => nth k v 0). intros. reflexivity.
  - destruct v as [|c [|]]; try discriminate. intros [= <-]. split; [done|].
    exists (fun _ => c). intros. simpl. ring.
Qed.

Lemma dot_scaled_sym A B :
  ncols B = ncols A -> (exists w : nat -> Q, forall i k, entry B i k == entry A i k * w k) ->
  forall i j, entry (dot B (transpose A)) i j == entry (dot B (transpose A)) j i.
Proof.
  intros Hc [w Hw] i j. simpl. apply qsum_ext. intros k _. rewrite !Hw. ring.
Qed.

Lemma density_symmetric beta C o Da Db :
  _compute_inactive_density_matrix beta C o = Ok (Da, Db) ->
  (forall i j, entry Da i j == entry Da j i) /\
  (forall D, Db = Some D -> forall i j, entry D i j == entry D j i).
Proof.
  unfold _compute_inactive_density_matrix.
  destruct (mat_mul_row C.1 o.1) as [ca|] eqn:Ha; simpl; [|discriminate].
  destruct (mat_mul_row_scaled _ _ _ Ha) as [Hc Hw].
  destruct beta; simpl.
  - destruct C as [c [cb|]], o as [oa [ob|]]; simpl; try discriminate.
    destruct (mat_mul_row cb ob) as [cbo|] eqn:Hb; simpl; [|discriminate].
    destruct (mat_mul_row_scaled _ _ _ Hb) as [Hc' Hw'].
    intros [= <- <-]. split; [by apply dot_scaled_sym|].
    intros D [= <-]. by apply dot_scaled_sym.
  - intros [= <- <-]. split; [by apply dot_scaled_sym|]. discriminate.
Qed.

Lemma coulomb_of_symmetric eri D :
  (forall i j, entry D i j == entry D j i) ->
  forall k l, entry (einsum_coulomb eri D) k l == entry (coulomb_spec eri D) k l.
Proof.
  intros HD k l. simpl. apply qsum_ext. intros i _. apply qsum_ext. intros j _.
  rewrite HD. reflexivity.
Qed.

Lemma exchange_is_spec eri D k l :
  entry (einsum_exchange eri D) k l = entry (exchange_spec eri D) k l.
Proof. reflexivity. Qed.

(** C2.  Whenever the inactive density comes from
    [_compute_inactive_density_matrix] and [_compute_inactive_fock_op]
    succeeds, the Fock operator is, entry by entry, [hcore + J - 0.5 K] in the
    restricted case, with [J[k,l] = sum_ij eri[i,j,k,l] D[i,j]] and
    [K[i,l] = sum_jk eri[i,j,k,l] D[j,k]] (the source contracts [D[j,i]];
    the density is symmetric).  In the unrestricted case the alpha operator
    is [hcore + J_a + J_b - K_a] and the beta one [hcore_b + J_a + J_b - K_b],
    [hcore_b] being [hcore[1]] or, when that is falsy, [hcore[0]]. *)
Theorem inactive_fock_follows_formula beta C o ctx hcore eri Fa Fb :
  _compute_inactive_density_matrix beta C o = Ok (ctx_density_inactive ctx) ->
  ctx_beta ctx = beta ->
  _compute_inactive_fock_op ctx hcore eri = Ok (Fa, Fb) ->
  let Da := (ctx_density_inactive ctx).1 in
  exists h F, hcore.1 = VMat h /\ Fa = VMat F /\
  if beta then
    exists hb Db Fb', (hcore.2 = VMat hb \/ hcore.1 = VMat hb) /\
      (ctx_density_inactive ctx).2 = Some Db /\ Fb = VMat Fb' /\
      forall k l,
        entry F k l == entry h k l + entry (coulomb_spec eri Da) k l
                       + entry (coulomb_spec eri Db) k l - entry (exchange_spec eri Da) k l /\
        entry Fb' k l == entry hb k l + entry (coulomb_spec eri Da) k l
                         + entry (coulomb_spec eri Db) k l - entry (exchange_spec eri Db) k l
  else Fb = VNone /\
    forall k l, entry F k l == entry h k l + entry (coulomb_spec eri Da) k l
                               - (1#2) * entry (exchange_spec eri Da) k l.
Proof.
  intros Hd Hb H Da.
  destruct (ctx_density_inactive ctx) as [Da' Db] eqn:HD. subst Da. simpl.
  destruct (density_symmetric _ _ _ _ _ Hd) as [Sa Sb].
  unfold _compute_inactive_fock_op in H. rewrite HD, Hb in H. simpl in H.
  destruct hcore as [h0 h1]. simpl in H |- *.
  destruct h0 as [| | | | |h| |]; simpl in H; try discriminate.
  exists h. destruct beta.
  - destruct (py_or h1 (VMat h)) as [hb|] eqn:Hor; simpl in H; [|discriminate].
    destruct hb as [| | | | |hb| |]; simpl in H; try discriminate.
    destruct Db as [Db|]; simpl in H; [|discriminate].
    injection H as <- <-. eexists. split; [done|]. split; [done|].
    exists hb, Db. eexists. split.
    { unfold py_or in Hor. destruct (py_truthy h1) as [[]|]; simpl in Hor; try discriminate;
      injection Hor as ->; auto. }
    split; [done|]. split; [done|]. intros k l.
    unfold mat_sub, mat_add, mat_scale. cbn [entry].
    rewrite !coulomb_of_symmetric by auto. split; reflexivity.
  - injection H as <- <-. eexists. split; [done|]. split; [done|]. split; [done|].
    intros k l. unfold mat_sub, mat_add, mat_scale. cbn [entry].
    rewrite coulomb_of_symmetric by auto. reflexivity.
Qed.

Lemma inactive_fock_follows_formula_witness :
  entry h2_fock 0 1 == entry h2_hcore 0 1 + entry (coulomb_spec h2_eri h2_density) 0 1
                       - (1#2) * entry (exchange_spec h2_eri h2_density) 0 1.
Proof.
  destruct (inactive_fock_follows_formula false (ident2, None) ([2; 0], None) h2_ctx
              (VMat h2_hcore, VNone) h2_eri (VMat h2_fock) VNone eq_refl eq_refl eq_refl)
    as (h & F & Hh & HF & _ & Hf).
  injection Hh as <-. injection HF as <-. exact (Hf 0%nat 1%nat).
Defined.

Lemma Frame_ret {A} (a : A) : Frame (mret a).
Proof. by intros s k _. Qed.
Lemma Frame_lift {A} (r : result A) : Frame (lift r).
Proof. by intros s k _. Qed.
Lemma Frame_get : Frame mget.
Proof. by intros s k _. Qed.
Lemma Frame_mattr n : Frame (mattr n).
Proof. by intros s k _. Qed.
Lemma Frame_bind {A B} (m : M A) (f : A -> M B) :
  Frame m -> (forall a, Frame (f a)) -> Frame (mbind m f).
Proof.
  intros Hm Hf s k Hk. unfold mbind. pose proof (Hm s k Hk) as E.
  destruct (m s) as [s1 [a|e]]; simpl in *; [by rewrite Hf|done].
Qed.
Lemma Frame_get_put {A} (v : QMolecule -> PyVal) (f : unit -> M A) :
  (forall u, Frame (f u)) -> Frame (mbind mget (fun q => mbind (mput (<["core_orbitals" := v q]> q)) f)).
Proof.
  intros Hf s k Hk. unfold mbind, mget, mput. rewrite Hf by done.
  by rewrite lookup_insert_ne by congruence.
Qed.

Ltac frame :=
  repeat first
    [ progress cbv beta iota zeta
    | apply Frame_ret | apply Frame_lift | apply Frame_mattr | apply Frame_get
    | apply Frame_get_put; intros ?
    | apply Frame_bind; [|intros ?]
    | match goal with |- context [match ?x with _ => _ end] => destruct x end ].

Lemma determine_frame self beta occ : Frame (_determine_active_space self beta occ).
Proof.
  unfold _determine_active_space. frame.
Qed.

Lemma reduce_dipole ctx q r0 r sh ao mo mob :
  _reduce_to_active_space ctx q r0 sh (Some ao, None) (Some mo, Some mob) None None = Ok r ->
  ctx_beta ctx = false /\ exists dip e shifts,
    q !! ao = Some (VMat dip) /\ r0 !! sh = Some (VDict shifts) /\
    _compute_inactive_energy ctx (VMat dip, VNone) (VMat dip, VNone) = Ok e /\
    r = <[mo := VMat (project (ctx_mo_coeff_active ctx).1 dip)]>
          (<[ao := VMat dip]> (<[sh := VDict (<["ActiveSpaceTransformer" := e]> shifts)]> r0)).
Proof.
  unfold _reduce_to_active_space, _compute_active_integrals.
  destruct (ctx_beta ctx) eqn:Hb; cbv beta iota zeta delta [rbind getattr setattr as_dict as_mat fst snd].
  - destruct (q !! ao); discriminate.
  - destruct (q !! ao) as [[]|] eqn:Hq; try discriminate.
    all: destruct (_compute_inactive_energy _ _ _) as [e|] eqn:He; try discriminate.
    all: cbn iota beta.
    all: try discriminate.
    destruct (r0 !! sh) as [[]|] eqn:Hs; try discriminate.
    intros [= <-]. split; [done|]. do 3 eexists. by repeat split.
Qed.

Lemma setup_inv q q' c cb of occt :
  _transform_setup q = (q', Ok (c, cb, of, occt)) ->
  q' = q /\ q !! "mo_coeff" = Some (VMat c) /\
  _extract_mo_occupation_vector (bool_decide (is_Some cb)) q = Ok of.
Proof.
  unfold _transform_setup. mstep. unfold as_mat.
  repeat (case_match; mstep; try discriminate). intros Hx; injection Hx as <- <- <- <- <-.
  split; [done|]. split; [|done]. congruence.
Qed.

(** C7.  Whenever [transform] succeeds the molecule is restricted, and for
    each dipole axis the reduction is the one-body part of the electronic
    reduction: with the context [ctx] built from the orbital partition (the
    active and inactive columns of [mo_coeff], and the inactive density), the
    caller's dipole matrix is left unchanged in the result, the reduced MO
    dipole matrix is its projection [C_act^T d C_act] onto the active columns,
    and the axis's own energy shift is [_compute_inactive_energy] with the
    dipole matrix in place of both [hcore] and the Fock operator (no two-body
    term).  In the unrestricted case the dipole reduction raises [TypeError]
    ([getattr(q_molecule, None)]), so [transform] never succeeds there. *)
Theorem dipole_reduction_per_axis self q r :
  (transform self q).2 = Ok r ->
  exists ctx c occ ob act inact oi,
    ctx_beta ctx = false /\
    q !! "mo_coeff" = Some (VMat c) /\ _extract_mo_occupation_vector false q = Ok (occ, ob) /\
    transform_partition self q = Ok (act, inact) /\
    col_select c act = Ok (ctx_mo_coeff_active ctx).1 /\
    col_select c inact = Ok (ctx_mo_coeff_inactive ctx).1 /\
    vec_select occ inact = Ok oi /\
    _compute_inactive_density_matrix false (ctx_mo_coeff_inactive ctx) (oi, None)
      = Ok (ctx_density_inactive ctx) /\
    Forall (fun '(ao, mo, sh) => exists dip e,
        q !! ao = Some (VMat dip) /\ r !! ao = Some (VMat dip) /\
        r !! mo = Some (VMat (project (ctx_mo_coeff_active ctx).1 dip)) /\
        _compute_inactive_energy ctx (VMat dip, VNone) (VMat dip, VNone) = Ok e /\
        shift_attr r sh = Some e) dipole_axes.
Proof.
  unfold transform. destruct (negb (_check_configuration self)); [discriminate|].
  destruct (mbind _ _ q) as [s' res] eqn:E. cbn [snd]. intros ->.
  apply mbind_ok_inv in E as (s1 & [[[c cb] of] occt] & Hs & Hk).
  pose proof Hs as Hs'. apply setup_inv in Hs' as (-> & Hc & Hof).
  cbv beta iota in Hk.
  apply mbind_ok_inv in Hk as (s2 & [[a i] np] & Hd & Hred).
  assert (Hpart : transform_partition self q = Ok (a, i)).
  { unfold transform_partition. rewrite (mbind_ok _ _ _ _ _ Hs). cbv beta iota. by rewrite Hd. }
  pose proof (fun k Hk => determine_frame self (bool_decide (is_Some cb)) occt q k Hk) as Hfr. rewrite Hd in Hfr. cbn [fst] in Hfr.
  clear Hd.
  unfold _transform_reduce in Hred. mstep_in Hred. inv_matches.
  all: match goal with
       | Hx : _reduce_to_active_space _ _ _ "x_dip_energy_shift" _ _ _ _ = Ok _,
         Hy : _reduce_to_active_space _ _ _ "y_dip_energy_shift" _ _ _ _ = Ok _,
         Hz : _reduce_to_active_space _ _ _ "z_dip_energy_shift" _ _ _ _ = Ok _ |- _ =>
           apply reduce_dipole in Hz as (Hb & dz & ez & shz & Hqz & Hsz & Hez & ->);
           apply reduce_dipole in Hy as (_ & dy & ey & shy & Hqy & Hsy & Hey & ->);
           apply reduce_dipole in Hx as (_ & dx & ex & shx & Hqx & Hsx & Hex & ->)
       end.
  all: cbn [ctx_beta] in Hb; try discriminate Hb.
  all: change (bool_decide (is_Some (@None Mat))) with false in Hof.
  all: rewrite Hfr in Hqx, Hqy, Hqz by done.
  all: try match goal with
           H : bool_decide (is_Some (Some _)) = false |- _ =>
             apply bool_decide_eq_false in H; exfalso; apply H; eexists; reflexivity
           end.
  all: match goal with
       | Hp : transform_partition _ _ = Ok (?aa, ?ii), Hca : col_select _ ?aa = Ok ?ca,
         Hci : col_select _ ?ii = Ok ?ci, Hv : vec_select (fst _) ?ii = Ok ?oi,
         Hdm : _compute_inactive_density_matrix false _ _ = Ok ?dd |- _ =>
           exists {| ctx_beta := false; ctx_mo_coeff_active := (ca, None);
                     ctx_mo_coeff_inactive := (ci, None); ctx_density_inactive := dd |},
             c, of.1, of.2, aa, ii, oi
       end.
  all: cbn [ctx_beta ctx_mo_coeff_active ctx_mo_coeff_inactive ctx_density_inactive fst snd].
  all: destruct of as [occ ob]; cbn [fst snd] in *.
  all: split; [done|]; split; [done|]; split; [done|]; split; [done|].
  all: split; [eassumption|]; split; [eassumption|]; split; [eassumption|]; split; [eassumption|].
  all: unfold dipole_axes, shift_attr; repeat constructor.
  all: eexists _, _; split; [eassumption|].
  all: split; [by simplify_map_eq|]; split; [by simplify_map_eq|]; split; [eassumption|].
  all: by simplify_map_eq.
Qed.

Lemma dipole_reduction_per_axis_witness :
  exists r ctx, (transform (config (Some 0%Z) (Some 1%Z) None false None) (h2_molecule [])).2 = Ok r /\
    ctx_beta ctx = false.
Proof.
  assert (Hok : match (transform (config (Some 0%Z) (Some 1%Z) None false None) (h2_molecule [])).2
                with Ok _ => True | Err _ => False end) by (vm_compute; exact I).
  destruct (transform (config (Some 0%Z) (Some 1%Z) None false None) (h2_molecule [])).2
    as [r|e] eqn:E; [|destruct Hok].
  destruct (dipole_reduction_per_axis _ _ _ E) as (ctx & _ & _ & _ & _ & _ & _ & Hb & _).
  exists r, ctx. split; [reflexivity|exact Hb].
Defined.

Lemma qsum_zero n f : (forall k, (k < n)%nat -> f k == 0) -> qsum n f == 0.
Proof.
  induction n as [|n IH]; intros H; simpl; [reflexivity|].
  rewrite IH by (intros; apply H; lia). rewrite (H n) by lia. reflexivity.
Qed.

Lemma energy_no_inactive ctx h F :
  ctx_beta ctx = false -> ncols (ctx_mo_coeff_inactive ctx).1 = O ->
  _compute_inactive_energy ctx h F = Ok 0.
Proof.
  intros Hb Hc. unfold _compute_inactive_energy, mat_size. rewrite Hb, Hc, Nat.mul_0_r.
  reflexivity.
Qed.

Lemma density_no_inactive C o D :
  ncols C.1 = O -> _compute_inactive_density_matrix false C o = Ok D ->
  forall i j, entry D.1 i j == 0.
Proof.
  intros Hc. unfold _compute_inactive_density_matrix.
  destruct (mat_mul_row C.1 o.1) as [ca|] eqn:Ha; simpl; [|discriminate].
  intros [= <-] i j. simpl.
  assert (ncols ca = O) as ->.
  { revert Ha. unfold mat_mul_row. destruct (decide _).
    - intros [= <-]. exact Hc.
    - destruct o.1 as [|x [|]]; try discriminate. intros [= <-]. exact Hc. }
  reflexivity.
Qed.

Lemma fock_no_inactive ctx h eri F1 F2 :
  ctx_beta ctx = false -> (forall i j, entry (ctx_density_inactive ctx).1 i j == 0) ->
  _compute_inactive_fock_op ctx (VMat h, VNone) eri = Ok (F1, F2) ->
  exists F, F1 = VMat F /\ F2 = VNone /\ nrows F = nrows h /\ ncols F = ncols h /\
    forall i j, entry F i j == entry h i j.
Proof.
  intros Hb HD. unfold _compute_inactive_fock_op. rewrite Hb. simpl.
  intros [= <- <-]. eexists. split; [reflexivity|]. split; [reflexivity|].
  split; [reflexivity|]. split; [reflexivity|]. intros i j. simpl.
  rewrite (qsum_zero _ (fun i0 => qsum _ _)), (qsum_zero _ (fun j0 => qsum _ _)).
  - ring.
  - intros k _. apply qsum_zero. intros m _. rewrite HD. ring.
  - intros k _. apply qsum_zero. intros m _. rewrite HD. ring.
Qed.

Lemma reduce_electronic ctx q r0 r :
  ctx_beta ctx = false ->
  _reduce_to_active_space ctx q r0 "energy_shift" (Some "hcore", Some "hcore_b")
    (Some "mo_onee_ints", Some "mo_onee_ints_b") (Some "eri")
    (Some (Some "mo_eri_ints", Some "mo_eri_ints_ba", Some "mo_eri_ints_bb")) = Ok r ->
  exists h F e shifts,
    q !! "hcore" = Some (VMat h) /\ r0 !! "energy_shift" = Some (VDict shifts) /\
    _compute_inactive_energy ctx (VMat h, VNone) (VMat F, VNone) = Ok e /\
    r !! "energy_shift" = Some (VDict (<["ActiveSpaceTransformer" := e]> shifts)) /\
    r !! "mo_onee_ints" = Some (VMat (project (ctx_mo_coeff_active ctx).1 F)) /\
    ((q !! "eri" = Some VNone /\ F = h /\ r !! "mo_eri_ints" = r0 !! "mo_eri_ints") \/
     (exists eri, q !! "eri" = Some (VT4 eri) /\
        _compute_inactive_fock_op ctx (VMat h, VNone) eri = Ok (VMat F, VNone) /\
        r !! "mo_eri_ints" = Some (VT4 (einsum_4index eri (ctx_mo_coeff_active ctx).1
             (ctx_mo_coeff_active ctx).1 (ctx_mo_coeff_active ctx).1 (ctx_mo_coeff_active ctx).1)))).
Proof.
  intros Hb. unfold _reduce_to_active_space, _compute_active_integrals. rewrite Hb.
  change (String.eqb "eri" EmptyString) with false.
  cbv beta iota zeta delta [rbind getattr setattr as_dict as_mat fst snd the].
  intros H.
  repeat match goal with
         | H : Ok _ = Ok _ |- _ => injection H as H; subst
         | H : (_, _) = (_, _) |- _ => injection H as H; subst
         | H : ?x = VMat _ |- _ => is_var x; subst x
         | H : ?x = VDict _ |- _ => is_var x; subst x
         | H : ?x = VT4 _ |- _ => is_var x; subst x
         | H : ?x = Some _ |- _ => is_var x; subst x
         | H : ?x = (_, _) |- _ => is_var x; subst x
         | H : _compute_inactive_fock_op _ (?a, _) _ = Ok _ |- _ =>
             is_var a; destruct a; try discriminate H
         | H : context [match ?x with _ => _ end] |- _ =>
             lazymatch type of H with _ = Ok _ => destruct x eqn:?; cbv beta iota in H; try discriminate H end
         end.
  all: try match goal with
           | Hf : _compute_inactive_fock_op _ _ _ = Ok ?p |- _ =>
               assert (Hp2 : p.2 = VNone)
                 by (revert Hf; unfold _compute_inactive_fock_op; rewrite Hb; simpl;
                     intros [= <-]; reflexivity);
               destruct p as [p1 p2]; cbn in *; subst
           end.
  all: do 4 eexists; split; [reflexivity|]; split; [reflexivity|]; split; [eassumption|].
  all: split; [by simplify_map_eq|]; split; [by simplify_map_eq|].
  all: first [ left; split; [reflexivity|]; split; [reflexivity|]; by simplify_map_eq
             | right; eexists; split; [reflexivity|]; split; [eassumption|]; by simplify_map_eq ].
Qed.

Lemma rmap_py_index_nonneg len l ks :
  Forall (fun o => 0 <= o)%Z l -> rmap (py_index len) l = Ok ks -> ks = map Z.to_nat l.
Proof.
  intros Hl. revert ks. induction Hl as [|o l Ho _ IH]; simpl; intros ks.
  - by intros [= <-].
  - unfold py_index at 1. rewrite (proj2 (Z.leb_le _ _) Ho). simpl.
    destruct (o <? Z.of_nat len)%Z; simpl.
    + destruct (rmap (py_index len) l) as [ks'|]; simpl; [|discriminate].
      intros [= <-]. f_equal. by apply IH.
    + assert ((- Z.of_nat len <=? o) && (o <? 0) = false)%Z as ->.
      { apply andb_false_iff. right. apply Z.ltb_ge. exact Ho. }
      discriminate.
Qed.

Lemma col_select_range c n ca :
  col_select c (py_range_from 0 n) = Ok ca ->
  nrows ca = nrows c /\ ncols ca = Z.to_nat n /\
  forall p i, (i < Z.to_nat n)%nat -> entry ca p i = entry c p i.
Proof.
  unfold col_select. destruct (rmap _ _) as [ks|] eqn:E; simpl; [|discriminate].
  intros [= <-].
  assert (Hks : ks = seq 0 (Z.to_nat n)).
  { apply rmap_py_index_nonneg in E.
    - subst. unfold py_range_from, seqZ. rewrite map_map.
      rewrite <- (map_id (seq 0 (Z.to_nat n))) at 2. apply map_ext. intros a. lia.
    - apply Forall_forall. intros o Ho. apply list_elem_of_In, seqZ_In in Ho. lia. }
  subst ks. simpl. rewrite length_seq. split; [done|]. split; [done|].
  intros p i Hi. rewrite seq_nth by done. reflexivity.
Qed.

Lemma project_full ca c F h :
  nrows ca = nrows c -> ncols ca = ncols c ->
  (forall p i, (i < ncols c)%nat -> entry ca p i = entry c p i) ->
  ncols F = ncols h -> (forall i j, entry F i j == entry h i j) ->
  mat_eqv (project ca F) (project c h).
Proof.
  intros Hr Hc He HFc HF. unfold project, mat_eqv. cbn. rewrite Hr, Hc, HFc.
  split; [done|]. split; [done|]. intros i j Hi Hj.
  apply qsum_ext. intros k _. rewrite (He k j) by done.
  apply Qmult_comp; [|reflexivity].
  apply qsum_ext. intros l _. rewrite He by done. rewrite HF. reflexivity.
Qed.

Lemma einsum_4index_full ca c e :
  nrows ca = nrows c -> ncols ca = ncols c ->
  (forall p i, (i < ncols c)%nat -> entry ca p i = entry c p i) ->
  t4_eqv (einsum_4index e ca ca ca ca) (einsum_4index e c c c c).
Proof.
  intros Hr Hc He. unfold t4_eqv. cbn. rewrite Hc.
  do 4 (split; [done|]). intros i j k l Hi Hj Hk Hl.
  do 4 (apply qsum_ext; intros ? _). rewrite !He by done. reflexivity.
Qed.

Lemma determine_full self beta occ q s act inact np na nb n :
  freeze_core self = false -> active_orbitals self = None ->
  num_electrons self = Some (na + nb)%Z -> num_molecular_orbitals self = Some n ->
  q !! "num_alpha" = Some (VInt na) -> q !! "num_beta" = Some (VInt nb) ->
  _determine_active_space self beta occ q = (s, Ok (act, inact, np)) ->
  act = py_range_from 0 n /\ inact = [].
Proof.
  intros Hfc Hact Hne Hn Hna Hnb H. unfold _determine_active_space in H.
  rewrite Hfc, Hact, Hne in H. mstep_in H. rewrite Hna, Hnb in H. mstep_in H.
  inv_matches.
  all: rewrite Hn in *; inv_matches.
  all: match goal with Hs : Some _ = Some _ |- _ => injection Hs as -> end.
  all: rewrite Z.sub_diag; split; reflexivity.
Qed.



(* ================================================================== *)
(** * Further properties of the transformer and the builder *)

Lemma transform_frame self : Frame (transform self).
Proof.
  unfold transform. destruct (negb _).
  - by intros s k _.
  - unfold _transform_setup, _transform_reduce. frame.
    all: apply determine_frame.
Qed.

Lemma Pure_ret {A} (a : A) : Pure (mret a). Proof. by intros s. Qed.
Lemma Pure_lift {A} (r : result A) : Pure (lift r). Proof. by intros s. Qed.
Lemma Pure_get : Pure mget. Proof. by intros s. Qed.
Lemma Pure_mattr n : Pure (mattr n). Proof. by intros s. Qed.
Lemma Pure_bind {A B} (m : M A) (f : A -> M B) :
  Pure m -> (forall a, Pure (f a)) -> Pure (mbind m f).
Proof.
  intros Hm Hf s. unfold mbind. pose proof (Hm s) as E.
  destruct (m s) as [s1 [a|e]]; simpl in *; [by rewrite Hf|done].
Qed.
Ltac pure :=
  repeat first
    [ progress cbv beta iota zeta
    | apply Pure_ret | apply Pure_lift | apply Pure_mattr | apply Pure_get
    | apply Pure_bind; [|intros ?]
    | match goal with |- context [match ?x with _ => _ end] => destruct x end ].

Lemma transform_pure self :
  freeze_core self = false \/ remove_orbitals self = None -> Pure (transform self).
Proof.
  intros Hc. unfold transform. destruct (negb _).
  - by intros s.
  - unfold _transform_setup, _transform_reduce, _determine_active_space.
    destruct Hc as [Hc|Hc]; rewrite Hc; pure.
Qed.

Lemma setup_inv_b q q' c cb of occt :
  _transform_setup q = (q', Ok (c, cb, of, occt)) ->
  exists v, q !! "mo_coeff_b" = Some v /\ as_mat_opt v = Ok cb /\
  mo_occ_total (bool_decide (is_Some cb)) of = Ok occt.
Proof.
  unfold _transform_setup. mstep. unfold as_mat.
  repeat (case_match; mstep; try discriminate). intros Hx; injection Hx as <- <- <- <- <-.
  all: eexists; (split; [reflexivity|]); split; [congruence|assumption].
Qed.

Lemma reduce_electronic_eq ctx q r0 r :
  ctx_beta ctx = false ->
  _reduce_to_active_space ctx q r0 "energy_shift" (Some "hcore", Some "hcore_b")
    (Some "mo_onee_ints", Some "mo_onee_ints_b") (Some "eri")
    (Some (Some "mo_eri_ints", Some "mo_eri_ints_ba", Some "mo_eri_ints_bb")) = Ok r ->
  exists h F e shifts,
    q !! "hcore" = Some (VMat h) /\ r0 !! "energy_shift" = Some (VDict shifts) /\
    _compute_inactive_energy ctx (VMat h, VNone) (VMat F, VNone) = Ok e /\
    let R := <["mo_onee_ints" := VMat (project (ctx_mo_coeff_active ctx).1 F)]>
               (<["hcore" := VMat F]>
                 (<["energy_shift" := VDict (<["ActiveSpaceTransformer" := e]> shifts)]> r0)) in
    ((q !! "eri" = Some VNone /\ F = h /\ r = R) \/
     (exists eri, q !! "eri" = Some (VT4 eri) /\
        _compute_inactive_fock_op ctx (VMat h, VNone) eri = Ok (VMat F, VNone) /\
        r = <["mo_eri_ints" := VT4 (einsum_4index eri (ctx_mo_coeff_active ctx).1
             (ctx_mo_coeff_active ctx).1 (ctx_mo_coeff_active ctx).1 (ctx_mo_coeff_active ctx).1)]> R)).
Proof.
  intros Hb. unfold _reduce_to_active_space, _compute_active_integrals. rewrite Hb.
  change (String.eqb "eri" EmptyString) with false.
  cbv beta iota zeta delta [rbind getattr setattr as_dict as_mat fst snd the].
  intros H.
  repeat match goal with
         | H : Ok _ = Ok _ |- _ => injection H as H; subst
         | H : (_, _) = (_, _) |- _ => injection H as H; subst
         | H : ?x = VMat _ |- _ => is_var x; subst x
         | H : ?x = VDict _ |- _ => is_var x; subst x
         | H : ?x = VT4 _ |- _ => is_var x; subst x
         | H : ?x = Some _ |- _ => is_var x; subst x
         | H : ?x = (_, _) |- _ => is_var x; subst x
         | H : _compute_inactive_fock_op _ (?a, _) _ = Ok _ |- _ =>
             is_var a; destruct a; try discriminate H
         | H : context [match ?x with _ => _ end] |- _ =>
             lazymatch type of H with _ = Ok _ => destruct x eqn:?; cbv beta iota in H; try discriminate H end
         end.
  all: try match goal with
           | Hf : _compute_inactive_fock_op _ _ _ = Ok ?p |- _ =>
               assert (Hp2 : p.2 = VNone)
                 by (revert Hf; unfold _compute_inactive_fock_op; rewrite Hb; simpl;
                     intros [= <-]; reflexivity);
               destruct p as [p1 p2]; cbn in *; subst
           end.
  all: try match goal with
           | Hf : _compute_inactive_fock_op _ _ _ = Ok (?p1, VNone) |- _ =>
               assert (Hp1 : exists F, p1 = VMat F)
                 by (revert Hf; unfold _compute_inactive_fock_op; rewrite Hb; simpl;
                     intros [= <-]; eexists; reflexivity);
               destruct Hp1 as [? ->]
           end.
  all: do 4 eexists; split; [reflexivity|]; split; [reflexivity|]; split; [eassumption|].
  all: first [ left; split; [reflexivity|]; split; reflexivity
             | right; eexists; split; [reflexivity|]; split; [eassumption|]; reflexivity ].
Qed.

Ltac transform_inv :=
  lazymatch goal with
  | |- (transform ?self ?q).2 = Ok _ -> _ =>
    unfold transform; destruct (negb (_check_configuration self)) eqn:Hcfg; [discriminate|];
    destruct (mbind _ _ q) as [s' res] eqn:E; cbn [snd]; intros ->;
    apply mbind_ok_inv in E as (s1 & [[[c cb] of] occt] & Hs & Hk);
    pose proof Hs as Hs'; apply setup_inv in Hs' as (-> & Hc & Hof);
    pose proof Hs as Hsb; apply setup_inv_b in Hsb as (vb & Hvb & Hcb & Hocc);
    cbv beta iota in Hk;
    apply mbind_ok_inv in Hk as (s2 & [[a i] np] & Hd & Hred);
    assert (Hpart : transform_partition self q = Ok (a, i))
      by (unfold transform_partition; rewrite (mbind_ok _ _ _ _ _ Hs); cbv beta iota;
          by rewrite Hd);
    pose proof (fun k Hk => determine_frame self (bool_decide (is_Some cb)) occt q k Hk) as Hfr;
    rewrite Hd in Hfr; cbn [fst] in Hfr;
    unfold _transform_reduce in Hred; mstep_in Hred; inv_matches
  end.

Ltac reduce_inv :=
  match goal with
  | Hx : _reduce_to_active_space _ _ _ "x_dip_energy_shift" _ _ _ _ = Ok _,
    Hy : _reduce_to_active_space _ _ _ "y_dip_energy_shift" _ _ _ _ = Ok _,
    Hz : _reduce_to_active_space _ _ _ "z_dip_energy_shift" _ _ _ _ = Ok _ |- _ =>
      apply reduce_dipole in Hz as (Hb & dz & ez & shz & Hqz & Hsz & Hez & ->);
      apply reduce_dipole in Hy as (_ & dy & ey & shy & Hqy & Hsy & Hey & ->);
      apply reduce_dipole in Hx as (_ & dx & ex & shx & Hqx & Hsx & Hex & ->)
  end;
  match goal with
  | H : ctx_beta _ = false |- _ => cbn [ctx_beta] in H; try discriminate H
  end;
  try match goal with
      H : bool_decide (is_Some (Some _)) = false |- _ =>
        apply bool_decide_eq_false in H; exfalso; apply H; eexists; reflexivity
      end;
  match goal with
  | He : _reduce_to_active_space _ _ _ "energy_shift" _ _ _ _ = Ok _ |- _ =>
      apply reduce_electronic_eq in He as (h & F & e0 & sh0 & Hqh & Hs0 & He0 & Heri);
        [|reflexivity]
  end.


(** X3. A molecule with beta coefficients [mo_coeff_b] is never reduced successfully: the dipole reductions pass the attribute name [None] to [getattr] and raise. *)
Theorem transform_rejects_unrestricted self q cb0 r :
  q !! "mo_coeff_b" = Some (VMat cb0) -> (transform self q).2 <> Ok r.
Proof.
  intros H Hr. revert Hr. transform_inv. all: reduce_inv.
  all: rewrite H in Hvb; injection Hvb as <-; discriminate Hcb.
Qed.

(** X4. Every attribute of the reduced molecule outside the list [reduced_attrs] is the one of the deep copy of the (possibly core-updated) input. *)
Theorem reduced_copy_rewrites_listed_only self q r k :
  (transform self q).2 = Ok r -> ~ In k reduced_attrs -> r !! k = (transform self q).1 !! k.
Proof.
  transform_inv. all: reduce_inv.
  all: intros Hk; cbn [fst].
  all: assert (Hne : forall n, In n reduced_attrs -> n <> k) by (intros n Hn ->; exact (Hk Hn)).
  all: destruct Heri as [(_ & _ & ->) | (eri & _ & _ & ->)].
  all: rewrite !lookup_insert_ne by (apply Hne; simpl; tauto).
  all: reflexivity.
Qed.

Lemma rmap_length {A B} (f : A -> result B) l ys : rmap f l = Ok ys -> length ys = length l.
Proof.
  revert ys. induction l as [|x l IH]; simpl; intros ys.
  - by intros [= <-].
  - destruct (f x); simpl; [|discriminate]. destruct (rmap f l) eqn:E; simpl; [|discriminate].
    intros [= <-]. simpl. by rewrite (IH _ eq_refl).
Qed.

Lemma col_select_ncols c l ca : col_select c l = Ok ca -> ncols ca = length l.
Proof.
  unfold col_select. destruct (rmap _ _) eqn:E; simpl; [|discriminate].
  intros [= <-]. simpl. by apply rmap_length in E.
Qed.

(** X5. The reduced molecule records [num_molecular_orbitals] (or [None]) as [num_orbitals], the active columns of [mo_coeff] as [mo_coeff], [None] as [mo_coeff_b], [kinetic] and [overlap], and the active entries of the orbital energies. *)
Theorem reduced_orbital_attributes self q r :
  (transform self q).2 = Ok r ->
  exists c act inact ca oe oe',
    q !! "mo_coeff" = Some (VMat c) /\ transform_partition self q = Ok (act, inact) /\
    col_select c act = Ok ca /\ ncols ca = length act /\
    q !! "orbital_energies" = Some (VVec oe) /\ vec_select oe act = Ok oe' /\
    r !! "num_orbitals" = Some (match num_molecular_orbitals self with
                                | Some m => VInt m | None => VNone end) /\
    r !! "mo_coeff" = Some (VMat ca) /\ r !! "mo_coeff_b" = Some VNone /\
    r !! "orbital_energies" = Some (VVec oe') /\
    r !! "kinetic" = Some VNone /\ r !! "overlap" = Some VNone.
Proof.
  transform_inv. all: reduce_inv.
  all: rewrite Hfr in Heqo0 by done.
  all: eexists _, a, i, _, _, _; split; [eassumption|]; split; [eassumption|].
  all: split; [eassumption|]; split; [eapply col_select_ncols; eassumption|].
  all: split; [eassumption|]; split; [eassumption|].
  all: destruct Heri as [(_ & _ & ->) | (eri & _ & _ & ->)].
  all: rewrite ?Heqo; repeat split; by simplify_map_eq.
Qed.

Lemma fock_restricted ctx h eri F1 F2 :
  ctx_beta ctx = false -> _compute_inactive_fock_op ctx (VMat h, VNone) eri = Ok (F1, F2) ->
  F1 = VMat (mat_sub (mat_add h (einsum_coulomb eri (ctx_density_inactive ctx).1))
                     (mat_scale (1#2) (einsum_exchange eri (ctx_density_inactive ctx).1))) /\
  F2 = VNone.
Proof. intros Hb. unfold _compute_inactive_fock_op. rewrite Hb. simpl. by intros [= <- <-]. Qed.

(** X6. The reduced [hcore] is the inactive Fock operator [h + J - 1/2 K] of the inactive density (or [hcore] itself when [eri] is [None]); the [eri] attribute is kept. *)
Theorem reduced_hcore_is_inactive_fock self q r :
  (transform self q).2 = Ok r ->
  exists h F, q !! "hcore" = Some (VMat h) /\ r !! "hcore" = Some (VMat F) /\
    r !! "eri" = q !! "eri" /\
    ((q !! "eri" = Some VNone /\ F = h) \/
     (exists eri c occ ob act inact ci oi D,
        q !! "eri" = Some (VT4 eri) /\
        q !! "mo_coeff" = Some (VMat c) /\ _extract_mo_occupation_vector false q = Ok (occ, ob) /\
        transform_partition self q = Ok (act, inact) /\
        col_select c inact = Ok ci /\ vec_select occ inact = Ok oi /\
        _compute_inactive_density_matrix false (ci, None) (oi, None) = Ok D /\
        F = mat_sub (mat_add h (einsum_coulomb eri D.1)) (mat_scale (1#2) (einsum_exchange eri D.1)))).
Proof.
  transform_inv. all: reduce_inv.
  all: rewrite Hfr in Hqh by done.
  all: change (bool_decide (is_Some (@None Mat))) with false in Hof.
  all: exists h, F; split; [assumption|].
  all: destruct Heri as [(Hn & -> & ->) | (eri & He & Hf & ->)].
  all: rewrite Hfr in * by done.
  all: split; [by simplify_map_eq|]; split; [by simplify_map_eq; rewrite Hfr|].
  all: try (left; split; [assumption|reflexivity]).
  all: right; apply fock_restricted in Hf as [[= HF] _]; [|reflexivity].
  all: destruct of as [occ ob].
  all: do 9 eexists; split; [eassumption|]; split; [eassumption|]; split; [eassumption|].
  all: split; [eassumption|]; split; [eassumption|]; split; [eassumption|].
  all: split; [eassumption|]; exact HF.
Qed.

Lemma determine_np_default self beta occ q s act inact np ne :
  freeze_core self = false -> num_electrons self = Some ne ->
  _determine_active_space self beta occ q = (s, Ok (act, inact, np)) ->
  (forall a, num_alpha self = Some a -> np = (VInt a, VInt (ne - a)%Z)) /\
  (num_alpha self = None -> exists mult, q !! "multiplicity" = Some (VInt mult) /\
     np = (VInt (ne - (ne - (mult - 1)) / 2)%Z, VInt ((ne - (mult - 1)) / 2)%Z)).
Proof.
  intros Hfc Hne H. unfold _determine_active_space in H. rewrite Hfc, Hne in H.
  mstep_in H. inv_matches.
  all: split; [ first [intros ? [= <-]; reflexivity | intros ? [=]]
              | first [intros _; eexists; split; reflexivity | intros [=]] ].
Qed.

(** X7. Without [freeze_core], the reduced [num_alpha]/[num_beta] are [(num_alpha, num_electrons - num_alpha)] when [num_alpha] is given, and otherwise [(ne - b, b)] with [b = (ne - (multiplicity - 1)) // 2], so that alpha electrons are at least as many as beta ones. *)
Theorem default_mode_particle_numbers self q r ne :
  freeze_core self = false -> num_electrons self = Some ne ->
  (transform self q).2 = Ok r ->
  (forall a, num_alpha self = Some a ->
     r !! "num_alpha" = Some (VInt a) /\ r !! "num_beta" = Some (VInt (ne - a)%Z)) /\
  (num_alpha self = None -> exists mult b,
     q !! "multiplicity" = Some (VInt mult) /\ b = ((ne - (mult - 1)) / 2)%Z /\
     r !! "num_alpha" = Some (VInt (ne - b)%Z) /\ r !! "num_beta" = Some (VInt b) /\
     ((1 <= mult)%Z -> (b <= ne - b)%Z) /\
     ((ne - (mult - 1)) mod 2 = 0 -> ne - b - b = mult - 1)%Z).
Proof.
  intros Hfc Hne. transform_inv. all: reduce_inv.
  all: pose proof (determine_np_default _ _ _ _ _ _ _ _ _ Hfc Hne Hd) as [Hsome Hnone].
  all: destruct Heri as [(_ & _ & ->) | (eri & _ & _ & ->)].
  all: split; [intros a0' Ha; rewrite (Hsome a0' Ha); cbn [fst snd]; split; by simplify_map_eq|].
  all: intros Ha; destruct (Hnone Ha) as (mult & Hm & ->); cbn [fst snd].
  all: exists mult, ((ne - (mult - 1)) / 2)%Z; split; [exact Hm|]; split; [reflexivity|].
  all: split; [by simplify_map_eq|]; split; [by simplify_map_eq|].
  all: split; [intros; pose proof (Z.div_mod (ne - (mult - 1)) 2); pose proof (Z.mod_pos_bound (ne - (mult - 1)) 2); lia|].
  all: intros Hm2; pose proof (Z.div_mod (ne - (mult - 1)) 2); lia.
Qed.

Lemma determine_np_freeze self beta occ q s act inact np :
  freeze_core self = true ->
  _determine_active_space self beta occ q = (s, Ok (act, inact, np)) ->
  exists na nb occs mult,
    q !! "num_alpha" = Some (VInt na) /\ q !! "num_beta" = Some (VInt nb) /\
    rmap (vec_at occ) inact = Ok occs /\ q !! "multiplicity" = Some (VInt mult) /\
    let nelec_active := inject_Z (na + nb) - py_sum occs in
    let n_alpha := inject_Z (Qfloor ((nelec_active - inject_Z (mult - 1)) / 2)) in
    np = (VFloat n_alpha, VFloat (nelec_active - n_alpha)).
Proof.
  intros Hfc H. unfold _determine_active_space in H. rewrite Hfc in H. mstep_in H. inv_matches.
  all: rewrite ?lookup_insert_ne in * by done.
  all: do 4 eexists; do 4 (split; [first [reflexivity|eassumption]|]); reflexivity.
Qed.


Lemma rfilter_ok_iff {A} (p : A -> result bool) l r x :
  rfilter p l = Ok r -> In x r <-> In x l /\ p x = Ok true.
Proof.
  revert r. induction l as [|y l IH]; simpl; intros r H.
  - injection H as <-. simpl. tauto.
  - destruct (p y) as [b|] eqn:Hp; simpl in H; [|discriminate].
    destruct (rfilter p l) as [r'|] eqn:Hr; simpl in H; [|discriminate].
    injection H as <-. specialize (IH r' eq_refl).
    destruct b; simpl; rewrite IH; split.
    + intros [<-|[? ?]]; auto.
    + intros [[<-|?] ?]; auto.
    + intros [? ?]; auto.
    + intros [[<-|?] ?]; [congruence|auto].
Qed.

Lemma explicit_inactive_pred l occ o :
  (if py_in o l then Ok false
   else match vec_at occ o with Ok a => Ok (negb (Qle_bool a 0)) | Err e => Err e end) = Ok true <->
  ~ In o l /\ exists x, vec_at occ o = Ok x /\ 0 < x.
Proof.
  rewrite <- py_in_In. destruct (py_in o l).
  - split; [intros [=] | intros [Hn _]; by destruct Hn].
  - destruct (vec_at occ o) as [x|e].
    + split.
      * intros [= H1]. split; [done|]. exists x. split; [done|].
        apply negb_true_iff in H1. destruct (Qlt_le_dec 0 x) as [Hx|Hx]; [done|].
        apply Qle_bool_iff in Hx. congruence.
      * intros (_ & y & [= <-] & Hy). f_equal. apply negb_true_iff.
        destruct (Qle_bool x 0) eqn:E; [|done]. apply Qle_bool_iff in E. lra.
    + split; [intros [=] | intros (_ & y & [=] & _)].
Qed.

Lemma determine_explicit_inactive self beta occ q s act inact np l :
  freeze_core self = false -> active_orbitals self = Some l ->
  _determine_active_space self beta occ q = (s, Ok (act, inact, np)) ->
  exists na nb, q !! "num_alpha" = Some (VInt na) /\ q !! "num_beta" = Some (VInt nb) /\
  forall o, In o inact <->
    (0 <= o < (na + nb) / 2)%Z /\ ~ In o l /\ exists x, vec_at occ o = Ok x /\ 0 < x.
Proof.
  intros Hfc Hact H. unfold _determine_active_space in H. rewrite Hfc, Hact in H.
  mstep_in H. inv_matches.
  all: do 2 eexists; split; [reflexivity|]; split; [reflexivity|].
  all: intros o; match goal with Hf : rfilter _ _ = Ok _ |- _ => rewrite (rfilter_ok_iff _ _ _ _ Hf) end.
  all: rewrite seqZ_In, explicit_inactive_pred, Z.add_0_l; reflexivity.
Qed.

(** X9. With an explicit [active_orbitals] list, the inactive orbitals are exactly the indices below [(num_alpha + num_beta) // 2] that are not listed and whose occupation is positive; the list itself is not checked for negative indices. *)
Theorem explicit_inactive_orbitals self q r l :
  freeze_core self = false -> active_orbitals self = Some l -> (transform self q).2 = Ok r ->
  exists na nb of inact,
    q !! "num_alpha" = Some (VInt na) /\ q !! "num_beta" = Some (VInt nb) /\
    _extract_mo_occupation_vector false q = Ok of /\
    transform_partition self q = Ok (l, inact) /\
    forall o, In o inact <->
      (0 <= o < (na + nb) / 2)%Z /\ ~ In o l /\ exists x, vec_at of.1 o = Ok x /\ 0 < x.
Proof.
  intros Hfc Hact. transform_inv. all: reduce_inv.
  all: change (bool_decide (is_Some (@None Mat))) with false in *.
  all: cbn [mo_occ_total] in Hocc; injection Hocc as <-.
  all: pose proof (determine_explicit_inv _ _ _ _ _ _ _ _ _ Hfc Hact Hd) as [-> _].
  all: pose proof (determine_explicit_inactive _ _ _ _ _ _ _ _ _ Hfc Hact Hd)
         as (na & nb & Hna & Hnb & Hin).
  all: exists na, nb, of, i; auto.
Qed.


Lemma aufbau_occ_S na nb n :
  aufbau_occ (S na) (S nb) (S n) = 2 :: aufbau_occ na nb n.
Proof. reflexivity. Qed.

Lemma aufbau_occ_0_l nb n : (nb <= n)%nat ->
  aufbau_occ 0 nb n = repeat 1 nb ++ repeat 0 (n - nb).
Proof. intros. unfold aufbau_occ. simpl. by rewrite Nat.sub_0_r. Qed.

Lemma aufbau_occ_0_r na n : (na <= n)%nat ->
  aufbau_occ na 0 n = repeat 1 na ++ repeat 0 (n - na).
Proof. intros. unfold aufbau_occ. rewrite Nat.min_0_r, Nat.max_0_r. simpl. by rewrite Nat.sub_0_r. Qed.

Lemma occ_restricted_fallback n : forall na nb, (na <= n)%nat -> (nb <= n)%nat ->
  let L := repeat 1 na ++ repeat 0 (n - na) in
  map (fun o => o + 1) (take nb L) ++ drop nb L = aufbau_occ na nb n.
Proof.
  induction n as [|n IH]; intros na nb Ha Hb L; subst L.
  - assert (na = 0)%nat by lia. assert (nb = 0)%nat by lia. subst. reflexivity.
  - destruct nb as [|b].
    + simpl. rewrite aufbau_occ_0_r by lia. reflexivity.
    + destruct na as [|a].
      * rewrite aufbau_occ_0_l by lia. simpl.
        specialize (IH 0%nat b ltac:(lia) ltac:(lia)). simpl in IH.
        rewrite Nat.sub_0_r in IH. rewrite IH, aufbau_occ_0_l by lia. reflexivity.
      * rewrite aufbau_occ_S. simpl. rewrite <- (IH a b) by lia. reflexivity.
Qed.

Lemma occ_unrestricted_fallback n : forall na nb, (na <= n)%nat -> (nb <= n)%nat ->
  zip_with Qplus (repeat 1 na ++ repeat 0 (n - na)) (repeat 1 nb ++ repeat 0 (n - nb)) =
  aufbau_occ na nb n.
Proof.
  induction n as [|n IH]; intros na nb Ha Hb.
  - assert (na = 0)%nat by lia. assert (nb = 0)%nat by lia. subst. reflexivity.
  - destruct na as [|a], nb as [|b].
    + unfold aufbau_occ. simpl. specialize (IH 0%nat 0%nat ltac:(lia) ltac:(lia)).
      unfold aufbau_occ in IH. simpl in IH. rewrite !Nat.sub_0_r in IH. by rewrite IH.
    + rewrite aufbau_occ_0_l by lia. simpl. specialize (IH 0%nat b ltac:(lia) ltac:(lia)).
      simpl in IH. rewrite Nat.sub_0_r in IH. rewrite IH, aufbau_occ_0_l by lia. reflexivity.
    + rewrite aufbau_occ_0_r by lia. simpl. specialize (IH a 0%nat ltac:(lia) ltac:(lia)).
      simpl in IH. rewrite Nat.sub_0_r in IH. rewrite IH, aufbau_occ_0_r by lia. reflexivity.
    + rewrite aufbau_occ_S. simpl. rewrite <- (IH a b) by lia. reflexivity.
Qed.

Lemma length_alpha_fallback na n : (na <= n)%nat ->
  length (repeat (1:Q) na ++ repeat 0 (n - na)) = n.
Proof. intros. rewrite length_app, !repeat_length. lia. Qed.

(** X10. Without [mo_occ], the occupation vector built by [_extract_mo_occupation_vector] gives, in total, [min(na, nb)] doubly occupied, [max - min] singly occupied and the remaining empty orbitals, both for restricted and unrestricted molecules. *)
Theorem occupation_fallback beta q na nb n :
  q !! "mo_occ" = Some VNone -> q !! "mo_occ_b" = Some VNone ->
  q !! "num_alpha" = Some (VInt (Z.of_nat na)) -> q !! "num_beta" = Some (VInt (Z.of_nat nb)) ->
  q !! "num_orbitals" = Some (VInt (Z.of_nat n)) ->
  (na <= n)%nat -> (nb <= n)%nat ->
  exists occ_full, _extract_mo_occupation_vector beta q = Ok occ_full /\
    mo_occ_total beta occ_full = Ok (aufbau_occ na nb n).
Proof.
  intros Ho Hob Hna Hnb Hn Ha Hb. unfold _extract_mo_occupation_vector, getattr.
  rewrite Ho, Hob, Hna, Hnb, Hn. cbv beta iota delta [rbind as_vec_opt as_int py_repeat].
  rewrite !Nat2Z.id, <- !Nat2Z.inj_sub, !Nat2Z.id by lia.
  destruct beta; eexists; split; [reflexivity| |reflexivity|]; cbn [mo_occ_total fst snd].
  - unfold vec_add. rewrite !length_alpha_fallback by lia.
    rewrite decide_True by done. f_equal. by apply occ_unrestricted_fallback.
  - f_equal. unfold py_slice_stop. rewrite length_alpha_fallback by lia.
    replace (0 <=? Z.of_nat nb)%Z with true by (symmetry; apply Z.leb_le; lia).
    rewrite Nat2Z.id, Nat.min_l by lia. by apply occ_restricted_fallback.
Qed.

Section BuilderFacts.
Variable fop_compose : FermionicOp -> FermionicOp -> FermionicOp.


Lemma fold_err_stays {A X} (g : result A -> X -> result A) l e :
  Propagates g -> fold_left g l (Err e) = Err e.
Proof. intros Hg. induction l; simpl; [done|]. by rewrite Hg. Qed.

Lemma fold_ok {A X} (g : result A -> X -> result A) l a0 :
  (forall a x, In x l -> exists a', g (Ok a) x = Ok a') ->
  exists r, fold_left g l (Ok a0) = Ok r.
Proof.
  revert a0. induction l as [|x l IH]; simpl; intros a0 Hf; [eauto|].
  destruct (Hf a0 x (or_introl eq_refl)) as [a' ->]. apply IH. auto.
Qed.

Lemma fold_err {A X} (g : result A -> X -> result A) l a0 E :
  Propagates g ->
  (forall a x e, In x l -> g (Ok a) x = Err e -> e = E) ->
  (exists x, In x l /\ forall a, exists e, g (Ok a) x = Err e) ->
  fold_left g l (Ok a0) = Err E.
Proof.
  intros Hg. revert a0. induction l as [|x l IH]; simpl; intros a0 He [y [Hy Hf]]; [done|].
  destruct (g (Ok a0) x) as [a'|e] eqn:Hx.
  - destruct Hy as [<-|Hy].
    + destruct (Hf a0) as [e He']. congruence.
    + apply IH; eauto.
  - rewrite (He _ _ _ (or_introl eq_refl) Hx). by apply fold_err_stays.
Qed.

Lemma fold_err_inv {A X} (g : result A -> X -> result A) l a0 e :
  Propagates g -> fold_left g l (Ok a0) = Err e ->
  exists a x, In x l /\ g (Ok a) x = Err e.
Proof.
  intros Hg. revert a0. induction l as [|x l IH]; simpl; intros a0 H; [done|].
  destruct (g (Ok a0) x) as [a'|e'] eqn:Hx.
  - destruct (IH a' H) as (a & y & Hy & Hf). eauto.
  - rewrite fold_err_stays in H by done. injection H as ->. eauto.
Qed.

Lemma product2_In n i j : In (i, j) (product2 n) <-> (i < n /\ j < n)%nat.
Proof.
  unfold product2. rewrite in_flat_map. split.
  - intros (x & Hx & Hm). apply in_map_iff in Hm as (y & [= -> ->] & Hy).
    apply in_seq in Hx, Hy. lia.
  - intros [Hi Hj]. exists i. split; [apply in_seq; lia|].
    apply in_map_iff. exists j. split; [done|apply in_seq; lia].
Qed.

Lemma product4_In n i j k l :
  In (i, j, k, l) (product4 n) <-> (i < n /\ j < n /\ k < n /\ l < n)%nat.
Proof.
  unfold product4. rewrite in_flat_map. split.
  - intros ([x y] & Hx & Hm). apply in_map_iff in Hm as ([z w] & [= -> -> -> ->] & Hz).
    apply product2_In in Hx, Hz. lia.
  - intros (Hi & Hj & Hk & Hl). exists (i, j). split; [apply product2_In; lia|].
    apply in_map_iff. exists (k, l). split; [done|apply product2_In; lia].
Qed.

Lemma one_body_step_cases A fop i j :
  (i < nrows A)%nat -> (j < nrows A)%nat ->
  let n := nrows A in
  let step := (fun (fermionic_op : FermionicOp) '(i, j) =>
      let? coeff := mat_at A i j in
      if Qeq_bool coeff 0 then Ok fermionic_op else
      let label := repeat "I"%char n in
      let base_op := fop_scale coeff (FermionicOp_of_label (join label)) in
      let? base_op := compose_sites fop_compose label base_op [(i, "+"%char); (j, "-"%char)] in
      Ok (fop_add fermionic_op base_op)) in
  ((j < ncols A)%nat -> exists r, step fop (i, j) = Ok r) /\
  (forall e, step fop (i, j) = Err e -> e = IndexError /\ (ncols A <= j)%nat).
Proof.
  intros Hi Hj n step. subst step. cbv beta iota. unfold mat_at.
  destruct (Nat.ltb_spec j (ncols A)) as [Hc|Hc];
    rewrite (proj2 (Nat.ltb_lt _ _) Hi); simpl.
  - destruct (Qeq_bool _ 0); [split; [eauto|by intros ? [=]]|].
    subst n. unfold set_label. rewrite repeat_length.
    rewrite (proj2 (Nat.ltb_lt _ _) Hi), (proj2 (Nat.ltb_lt _ _) Hj). simpl.
    split; [eauto|by intros ? [=]].
  - split; [lia|]. intros e [= <-]. split; [done|lia].
Qed.
Lemma fill_one_body_result fop A :
  ((ncols A < nrows A)%nat -> _fill_ferm_op_one_body_ints fop_compose fop A = Err IndexError) /\
  ((nrows A <= ncols A)%nat -> exists r, _fill_ferm_op_one_body_ints fop_compose fop A = Ok r).
Proof.
  unfold _fill_ferm_op_one_body_ints. split; intros Hn.
  - apply fold_err; [by intros e [i j]| |].
    + intros a [i j] e Hx Hs. apply product2_In in Hx as [Hi Hj].
      destruct (one_body_step_cases A a i j Hi Hj) as [_ Herr]. apply (Herr e Hs).
    + exists (0, ncols A)%nat. split; [apply product2_In; lia|].
      intros a. destruct (one_body_step_cases A a 0 (ncols A) ltac:(lia) ltac:(lia)) as [_ Herr].
      cbv zeta in Herr. cbv beta iota. unfold mat_at in *.
      rewrite (proj2 (Nat.ltb_lt 0 (nrows A))) by lia.
      rewrite Nat.ltb_irrefl. simpl. eauto.
  - apply fold_ok. intros a [i j] Hx. apply product2_In in Hx as [Hi Hj].
    destruct (one_body_step_cases A a i j Hi Hj) as [Hok _]. apply Hok. lia.
Qed.
Ltac ltb_true :=
  repeat match goal with
         | |- context [(?a <? ?b)%nat] => rewrite (proj2 (Nat.ltb_lt a b)) by lia
         end.

Lemma fill_two_body_result fop T :
  ((d1 T < d0 T \/ d2 T < d0 T \/ d3 T < d0 T)%nat ->
     _fill_ferm_op_two_body_ints fop_compose fop T = Err IndexError) /\
  ((d0 T <= d1 T /\ d0 T <= d2 T /\ d0 T <= d3 T)%nat ->
     exists r, _fill_ferm_op_two_body_ints fop_compose fop T = Ok r).
Proof.
  unfold _fill_ferm_op_two_body_ints. split; intros Hn.
  - apply fold_err; [by intros e [[[i j] k] l]| |].
    + intros a [[[i j] k] l] e Hx. apply product4_In in Hx as (Hi & Hj & Hk & Hl).
      cbv beta iota zeta. unfold t4_at.
      destruct (_ && _ && _ && _)%bool; simpl; [|congruence].
      destruct (Qeq_bool _ 0); [discriminate|].
      unfold set_label. rewrite repeat_length. ltb_true. simpl. discriminate.
    + destruct Hn as [H|[H|H]];
        [exists (0, d1 T, 0, 0)%nat | exists (0, 0, d2 T, 0)%nat | exists (0, 0, 0, d3 T)%nat];
        (split; [apply product4_In; lia|]); intros a; cbv beta iota zeta; unfold t4_at;
        (destruct (_ && _ && _ && _)%bool eqn:E; [|simpl; eauto]);
        repeat rewrite andb_true_iff in E; rewrite !Nat.ltb_lt in E; lia.
  - apply fold_ok. intros a [[[i j] k] l] Hx. apply product4_In in Hx as (Hi & Hj & Hk & Hl).
    cbv beta iota zeta. unfold t4_at. ltb_true. simpl.
    destruct (Qeq_bool _ 0); [eauto|].
    unfold set_label. rewrite repeat_length. ltb_true. simpl. eauto.
Qed.
Lemma fold_left_ext_in {A X} (g g' : A -> X -> A) l a0 :
  (forall a x, In x l -> g a x = g' a x) -> fold_left g l a0 = fold_left g' l a0.
Proof.
  revert a0. induction l as [|x l IH]; simpl; intros a0 H; [done|].
  rewrite H by auto. apply IH. auto.
Qed.

(** X12. When no index goes out of range, the operator built depends only on the leading square block of the one-body matrix and the leading cube of the two-body array. *)
Theorem build_reads_leading_block A t :
  (nrows A <= ncols A)%nat ->
  (forall T, t = Some T -> (d0 T <= d1 T /\ d0 T <= d2 T /\ d0 T <= d3 T)%nat) ->
  build_ferm_op_from_ints fop_compose A t =
  build_ferm_op_from_ints fop_compose (mkMat (nrows A) (nrows A) (entry A))
    (option_map (fun T => t4_of_fun (d0 T) (tentry T)) t).
Proof.
  intros HA HT. unfold build_ferm_op_from_ints. cbn [nrows].
  assert (E1 : forall fop, _fill_ferm_op_one_body_ints fop_compose fop A =
                 _fill_ferm_op_one_body_ints fop_compose fop (mkMat (nrows A) (nrows A) (entry A))).
  { intros fop. unfold _fill_ferm_op_one_body_ints. cbn [nrows].
    apply fold_left_ext_in. intros a [i j] Hx. apply product2_In in Hx as [Hi Hj].
    destruct a as [a|e]; [|done]. cbv beta iota. unfold mat_at. cbn [nrows ncols entry].
    ltb_true. reflexivity. }
  rewrite E1. destruct (_fill_ferm_op_one_body_ints _ _ _) as [r|e]; simpl; [|done].
  destruct t as [T|]; simpl; [|done].
  destruct (HT T eq_refl) as (H1 & H2 & H3).
  assert (E2 : _fill_ferm_op_two_body_ints fop_compose r T =
               _fill_ferm_op_two_body_ints fop_compose r (t4_of_fun (d0 T) (tentry T))).
  { unfold _fill_ferm_op_two_body_ints. cbn [d0 t4_of_fun].
    apply fold_left_ext_in. intros a [[[i j] k] l] Hx.
    apply product4_In in Hx as (Hi & Hj & Hk & Hl).
    destruct a as [a|e]; [|done]. cbv beta iota zeta. unfold t4_at, t4_of_fun.
    cbn [d0 d1 d2 d3 tentry]. ltb_true. reflexivity. }
  by rewrite E2.
Qed.
End BuilderFacts.

Lemma qsum_scale n c f : qsum n (fun k => c * f k) == c * qsum n f.
Proof. induction n as [|n IH]; simpl; [ring|]. rewrite IH. ring. Qed.

Lemma einsum_trace_double D X :
  einsum_trace D (mat_add X X) == 2 * einsum_trace D X.
Proof.
  unfold einsum_trace. rewrite <- qsum_scale. apply qsum_ext. intros i _.
  rewrite <- qsum_scale. apply qsum_ext. intros j _. simpl. ring.
Qed.

Lemma density_shape C o D :
  _compute_inactive_density_matrix false C o = Ok D ->
  nrows D.1 = nrows C.1 /\ forall i j, (ncols C.1 = O) -> entry D.1 i j == 0.
Proof.
  intros H. split.
  - revert H. unfold _compute_inactive_density_matrix.
    destruct (mat_mul_row C.1 o.1) as [ca|] eqn:Ha; simpl; [|discriminate].
    intros [= <-]. simpl. revert Ha. unfold mat_mul_row. destruct (decide _).
    + by intros [= <-].
    + destruct o.1 as [|x [|]]; try discriminate. by intros [= <-].
  - intros i j Hc. by apply (density_no_inactive C o).
Qed.

(** X13. For a restricted molecule, the energy shift of a dipole axis is [sum D[i,j] d[j,i]] (the trace of the inactive density times the dipole matrix): the factor 1/2 cancels the doubled dipole matrix. *)
Theorem dipole_shift_is_trace ctx occ dip e :
  ctx_beta ctx = false ->
  _compute_inactive_density_matrix false (ctx_mo_coeff_inactive ctx) occ =
    Ok (ctx_density_inactive ctx) ->
  _compute_inactive_energy ctx (VMat dip, VNone) (VMat dip, VNone) = Ok e ->
  e == einsum_trace (ctx_density_inactive ctx).1 dip.
Proof.
  intros Hb HD. destruct (density_shape _ _ _ HD) as [Hr Hz].
  unfold _compute_inactive_energy. rewrite Hb. simpl.
  destruct (0 <? mat_size (ctx_mo_coeff_inactive ctx).1)%nat eqn:Hs; simpl.
  - intros [= <-]. rewrite einsum_trace_double. ring.
  - intros [= <-]. apply Nat.ltb_ge in Hs. unfold mat_size in Hs.
    symmetry. unfold einsum_trace.
    destruct (Nat.eq_0_gt_0_cases (nrows (ctx_mo_coeff_inactive ctx).1)) as [H0|H0].
    + rewrite Hr, H0. reflexivity.
    + assert (Hc : ncols (ctx_mo_coeff_inactive ctx).1 = O) by nia.
      apply qsum_zero. intros i _. apply qsum_zero. intros j _. rewrite Hz by done. ring.
Qed.


Lemma qsum_add n f g : qsum n (fun k => f k + g k) == qsum n f + qsum n g.
Proof. induction n as [|n IH]; simpl; [ring|]. rewrite IH. ring. Qed.

Lemma qsum_mul_r n f c : qsum n f * c == qsum n (fun k => f k * c).
Proof. induction n as [|n IH]; simpl; [ring|]. rewrite <- IH. ring. Qed.

Lemma qsum_swap n m f :
  qsum n (fun i => qsum m (fun j => f i j)) == qsum m (fun j => qsum n (fun i => f i j)).
Proof.
  induction n as [|n IH]; simpl.
  - symmetry. apply qsum_zero. reflexivity.
  - rewrite IH, <- qsum_add. reflexivity.
Qed.

Lemma fock_symmetric ctx h eri F1 F2 :
  ctx_beta ctx = false ->
  (forall i j, entry (ctx_density_inactive ctx).1 i j == entry (ctx_density_inactive ctx).1 j i) ->
  mat_symmetric h -> eri_symmetric eri -> d0 eri = nrows h ->
  _compute_inactive_fock_op ctx (VMat h, VNone) eri = Ok (F1, F2) ->
  exists F, F1 = VMat F /\ F2 = VNone /\ mat_symmetric F.
Proof.
  intros Hb HD [Hsq Hh] (E1 & E2 & E3 & Hs) Hn.
  unfold _compute_inactive_fock_op. rewrite Hb. simpl. intros [= <- <-].
  eexists. split; [reflexivity|]. split; [reflexivity|].
  split; [exact Hsq|]. intros k l Hk Hl. cbn [entry nrows mat_sub mat_add mat_scale
    einsum_coulomb einsum_exchange].
  cbn [nrows mat_sub mat_add mat_scale] in Hk, Hl.
  rewrite E1, E2.
  assert (HJ : qsum (d0 eri) (fun i => qsum (d0 eri) (fun j =>
                 tentry eri i j k l * entry (ctx_density_inactive ctx).1 j i)) ==
               qsum (d0 eri) (fun i => qsum (d0 eri) (fun j =>
                 tentry eri i j l k * entry (ctx_density_inactive ctx).1 j i))).
  { apply qsum_ext. intros i Hi. apply qsum_ext. intros j Hj.
    destruct (Hs i j k l) as (_ & -> & _); [lia..|]. reflexivity. }
  assert (HK : qsum (d0 eri) (fun j => qsum (d0 eri) (fun m =>
                 tentry eri k j m l * entry (ctx_density_inactive ctx).1 j m)) ==
               qsum (d0 eri) (fun j => qsum (d0 eri) (fun m =>
                 tentry eri l j m k * entry (ctx_density_inactive ctx).1 j m))).
  { rewrite (qsum_swap (d0 eri) (d0 eri) (fun j m => tentry eri l j m k * _)).
    apply qsum_ext. intros j Hj. apply qsum_ext. intros m Hm.
    rewrite (HD m j).
    destruct (Hs l m j k) as (_ & _ & ->); [lia..|].
    destruct (Hs j k l m) as (-> & _ & _); [lia..|].
    destruct (Hs k j l m) as (_ & -> & _); [lia..|]. reflexivity. }
  rewrite HJ, HK, Hh by lia. reflexivity.
Qed.

Lemma project_symmetric C F :
  mat_symmetric F -> ncols F = nrows C -> mat_symmetric (project C F).
Proof.
  intros [Hsq HF] Hn. unfold project, dot, transpose. cbn [nrows ncols entry].
  split; [reflexivity|]. intros a b _ _.
  etransitivity; [apply qsum_ext; intros k _; apply qsum_mul_r|].
  etransitivity; [|symmetry; apply qsum_ext; intros k _; apply qsum_mul_r].
  etransitivity; [|symmetry; apply qsum_swap].
  rewrite Hn. apply qsum_ext. intros x Hx. apply qsum_ext. intros y Hy.
  rewrite (HF y x) by lia. ring.
Qed.

Lemma col_select_nrows c l ca : col_select c l = Ok ca -> nrows ca = nrows c.
Proof. unfold col_select. destruct (rmap _ _); simpl; [by intros [= <-]|discriminate]. Qed.

(** X14. Symmetric [hcore] and [eri] (of matching sizes) give a symmetric reduced [hcore] and a symmetric [mo_onee_ints]. *)
Theorem reduced_one_body_symmetric self q r hc :
  q !! "hcore" = Some (VMat hc) -> mat_symmetric hc ->
  (forall eri, q !! "eri" = Some (VT4 eri) -> eri_symmetric eri /\ d0 eri = nrows hc) ->
  (forall c, q !! "mo_coeff" = Some (VMat c) -> nrows c = nrows hc) ->
  (transform self q).2 = Ok r ->
  exists F Fa, r !! "hcore" = Some (VMat F) /\ r !! "mo_onee_ints" = Some (VMat Fa) /\
    mat_symmetric F /\ mat_symmetric Fa.
Proof.
  intros Hh Hsym Heri_s Hc_s. transform_inv. all: reduce_inv.
  all: rewrite Hfr in Hqh by done; rewrite Hh in Hqh; injection Hqh as <-.
  all: pose proof (Hc_s c Hc) as Hrows.
  all: match goal with
       | Hden : _compute_inactive_density_matrix _ _ _ = Ok ?D |- _ =>
           destruct D as [Da Db]; apply density_symmetric in Hden as [HDa _]
       end.
  all: destruct Heri as [(_ & -> & ->) | (eri & He & Hf & ->)]; cbn [ctx_mo_coeff_active fst].
  all: try (rewrite Hfr in He by done).
  all: try (destruct (Heri_s eri He) as [Hes Hd0];
            pose proof Hf as Hf';
            apply fock_restricted in Hf' as [[= HF] _]; [|reflexivity];
            apply fock_symmetric in Hf as (F' & [= <-] & _ & HFs);
            [|reflexivity|exact HDa|exact Hsym|exact Hes|exact Hd0]).
  all: eexists _, _; split; [by simplify_map_eq|]; split; [by simplify_map_eq|].
  all: try rewrite <- HF.
  all: split; [assumption|apply project_symmetric; [assumption|]].
  all: try (rewrite HF; cbn [ncols mat_sub]).
  all: erewrite col_select_nrows by eassumption; rewrite Hrows; symmetry; apply Hsym.
Qed.

Section Sum4.
Variable n : nat.

Lemma sum4_ext f g :
  (forall p q r s, (p < n)%nat -> (q < n)%nat -> (r < n)%nat -> (s < n)%nat ->
     f p q r s == g p q r s) -> sum4 n f == sum4 n g.
Proof.
  intros H. unfold sum4. apply qsum_ext; intros p Hp. apply qsum_ext; intros q Hq.
  apply qsum_ext; intros r Hr. apply qsum_ext; intros s Hs. auto.
Qed.

Lemma sum4_swap12 f : sum4 n f == sum4 n (fun p q r s => f q p r s).
Proof. unfold sum4. apply qsum_swap. Qed.

Lemma sum4_swap34 f : sum4 n f == sum4 n (fun p q r s => f p q s r).
Proof.
  unfold sum4. apply qsum_ext; intros p _. apply qsum_ext; intros q _. apply qsum_swap.
Qed.

Lemma sum4_pairs f : sum4 n f == sum4 n (fun p q r s => f r s p q).
Proof.
  unfold sum4.
  (* p q r s -> p r q s *)
  etransitivity; [apply qsum_ext; intros p _; apply qsum_swap|].
  (* p r q s -> r p q s *)
  etransitivity; [apply qsum_swap|].
  (* r p q s -> r p s q *)
  etransitivity; [apply qsum_ext; intros r _; apply qsum_ext; intros p _; apply qsum_swap|].
  (* r p s q -> r s p q *)
  apply qsum_ext; intros r _. apply qsum_swap.
Qed.

End Sum4.

Lemma four_index_symmetric eri C :
  eri_symmetric eri -> eri_symmetric (einsum_4index eri C C C C).
Proof.
  intros (E1 & E2 & E3 & Hs). unfold eri_symmetric. cbn [d0 d1 d2 d3 einsum_4index].
  split; [done|]; split; [done|]; split; [done|].
  intros i j k l _ _ _ _. cbn [tentry einsum_4index]. rewrite E1, E2, E3.
  split; [|split].
  - etransitivity; [apply sum4_swap12|]. apply sum4_ext. intros p q r s Hp Hq Hr Hs'.
    destruct (Hs q p r s) as (-> & _ & _); [lia..|]. ring.
  - etransitivity; [apply sum4_swap34|]. apply sum4_ext. intros p q r s Hp Hq Hr Hs'.
    destruct (Hs p q s r) as (_ & -> & _); [lia..|]. ring.
  - etransitivity; [apply sum4_pairs|]. apply sum4_ext. intros p q r s Hp Hq Hr Hs'.
    destruct (Hs r s p q) as (_ & _ & ->); [lia..|]. ring.
Qed.

(** X15. The four-index transform preserves the permutational symmetry of [eri]: the reduced [mo_eri_ints] is symmetric when [eri] is. *)
Theorem reduced_eri_symmetric self q r eri :
  q !! "eri" = Some (VT4 eri) -> eri_symmetric eri ->
  (transform self q).2 = Ok r ->
  exists eri', r !! "mo_eri_ints" = Some (VT4 eri') /\ eri_symmetric eri'.
Proof.
  intros Hq Hsym. transform_inv. all: reduce_inv.
  all: destruct Heri as [(He & _ & _) | (eri' & He & _ & ->)];
       rewrite Hfr, Hq in He by done; [discriminate|injection He as <-].
  all: eexists; split; [by simplify_map_eq|]. all: by apply four_index_symmetric.
Qed.

(** X16. An empty [active_orbitals] list with [num_molecular_orbitals = 0] passes the length check and makes [max] of the empty list raise [ValueError]; the input is left unchanged. *)
Theorem empty_active_list_value_error self q setup na nb ne n :
  freeze_core self = false -> num_electrons self = Some ne ->
  active_orbitals self = Some [] -> num_molecular_orbitals self = Some 0%Z ->
  (_transform_setup q).2 = Ok setup ->
  q !! "num_alpha" = Some (VInt na) -> q !! "num_beta" = Some (VInt nb) ->
  q !! "num_orbitals" = Some (VInt n) ->
  (num_alpha self = None -> exists mult, q !! "multiplicity" = Some (VInt mult)) ->
  _validate_num_electrons (na + nb - ne) = Ok tt ->
  transform self q = (q, Err ValueError).
Proof.
  intros Hfc Hne Hact Hnmo Hs Hna Hnb Hn Hmult Hv.
  rewrite (transform_after_setup self q setup); [|unfold _check_configuration; by rewrite Hfc, Hne, Hnmo|done].
  destruct setup as [[[c cb] o] occ].
  cbv beta iota. rewrite (mbind_err _ _ _ q ValueError); [done|].
  apply (determine_orbitals_err _ _ _ _ na nb ne); try assumption.
  unfold _validate_num_orbitals, getattr. rewrite Hn, Hact, Hnmo. reflexivity.
Qed.

(** X1. [transform] writes into the caller's molecule at most its [core_orbitals] attribute: every other attribute of the input is left as it was, whether or not [transform] raises. *)
Theorem transform_changes_only_core_orbitals self q k :
  k <> "core_orbitals" -> (transform self q).1 !! k = q !! k.
Proof. intros Hk. by apply transform_frame. Qed.

(** X2. Without [freeze_core], or without orbitals to remove, [transform] does not modify the caller's molecule at all. *)
Theorem transform_leaves_input_unchanged self q :
  freeze_core self = false \/ remove_orbitals self = None -> (transform self q).1 = q.
Proof. intros Hc. by apply transform_pure. Qed.

(** X17. Without [freeze_core], a missing [num_electrons] or [num_molecular_orbitals] makes [transform] raise the insufficient-configuration error before anything else, leaving the input unchanged. *)
Theorem insufficient_configuration_rejected self q :
  freeze_core self = false -> num_electrons self = None \/ num_molecular_orbitals self = None ->
  transform self q = (q, Err (QiskitNatureError msg_insufficient)).
Proof.
  intros Hfc Hn. unfold transform, _check_configuration. rewrite Hfc.
  destruct Hn as [-> | ->]; [|rewrite andb_false_r]; reflexivity.
Qed.

(** X18. A successful [transform] keeps the electronic and the three dipole energy-shift dictionaries of the input and adds to each exactly the entry [ActiveSpaceTransformer]. *)
Theorem energy_shifts_extended self q r :
  (transform self q).2 = Ok r ->
  Forall (fun sh => exists shifts e, q !! sh = Some (VDict shifts) /\
            r !! sh = Some (VDict (<["ActiveSpaceTransformer" := e]> shifts)))
    ["energy_shift"; "x_dip_energy_shift"; "y_dip_energy_shift"; "z_dip_energy_shift"].
Proof.
  transform_inv. all: reduce_inv.
  all: destruct Heri as [(_ & _ & ->) | (eri & _ & _ & ->)].
  all: repeat constructor.
  all: do 2 eexists; split; [|by simplify_map_eq].
  all: rewrite <- Hfr by done.
  all: match goal with H : _ !! ?k = Some (VDict _) |- _ !! ?k = _ => revert H end.
  all: by simplify_map_eq.
Qed.

(** ** Witnesses of the further properties *)

Ltac success_of t :=
  let Hok := fresh "Hok" in
  assert (Hok : match t with Ok _ => True | Err _ => False end) by (vm_compute; exact I);
  let r := fresh "r" in let E := fresh "E" in
  destruct t as [r|?] eqn:E; [|destruct Hok].

Lemma transform_changes_only_core_orbitals_witness :
  "hcore" <> "core_orbitals" /\
  (transform (config None None None true (Some [1%Z])) (h2_molecule [0%Z])).1 !! "hcore" =
    h2_molecule [0%Z] !! "hcore".
Proof.
  assert (Hk : "hcore" <> "core_orbitals") by discriminate.
  split; [exact Hk|exact (transform_changes_only_core_orbitals _ _ _ Hk)].
Defined.

Lemma transform_leaves_input_unchanged_witness :
  (freeze_core (config None None None true None) = false \/
   remove_orbitals (config None None None true None) = None) /\
  (transform (config None None None true None) (h2_molecule [0%Z])).1 = h2_molecule [0%Z].
Proof.
  assert (Hc : freeze_core (config None None None true None) = false \/
               remove_orbitals (config None None None true None) = None) by (right; reflexivity).
  split; [exact Hc|exact (transform_leaves_input_unchanged _ _ Hc)].
Defined.

Lemma transform_rejects_unrestricted_witness :
  h2_unrestricted !! "mo_coeff_b" = Some (VMat ident2) /\
  (transform (config (Some 2%Z) (Some 2%Z) None false None) h2_unrestricted).2 <> Ok h2_unrestricted.
Proof.
  assert (H : h2_unrestricted !! "mo_coeff_b" = Some (VMat ident2)) by reflexivity.
  split; [exact H|exact (transform_rejects_unrestricted _ _ _ _ H)].
Defined.

Lemma reduced_copy_rewrites_listed_only_witness :
  exists r, (transform (config (Some 2%Z) (Some 2%Z) None false None) (h2_molecule [])).2 = Ok r /\
    ~ In "eri" reduced_attrs /\
    r !! "eri" = (transform (config (Some 2%Z) (Some 2%Z) None false None) (h2_molecule [])).1 !! "eri".
Proof.
  success_of (transform (config (Some 2%Z) (Some 2%Z) None false None) (h2_molecule [])).2.
  assert (Hn : ~ In "eri" reduced_attrs).
  { unfold reduced_attrs. intros H. repeat (destruct H as [H|H]; [discriminate H|]). exact H. }
  exists r. split; [reflexivity|]. split; [exact Hn|].
  exact (reduced_copy_rewrites_listed_only _ _ _ _ E Hn).
Defined.

Lemma reduced_orbital_attributes_witness :
  exists r, (transform (config None None None true None) (h2_molecule [0%Z])).2 = Ok r /\
    r !! "num_orbitals" = Some VNone /\ r !! "mo_coeff_b" = Some VNone.
Proof.
  success_of (transform (config None None None true None) (h2_molecule [0%Z])).2.
  destruct (reduced_orbital_attributes _ _ _ E)
    as (c & act & inact & ca & oe & oe' & _ & _ & _ & _ & _ & _ & Hn & _ & Hb & _).
  exists r. split; [reflexivity|]. split; [exact Hn|exact Hb].
Defined.

Lemma reduced_hcore_is_inactive_fock_witness :
  exists r, (transform (config None None None true None) (h2_molecule [0%Z])).2 = Ok r /\
    exists h F, h2_molecule [0%Z] !! "hcore" = Some (VMat h) /\ r !! "hcore" = Some (VMat F).
Proof.
  success_of (transform (config None None None true None) (h2_molecule [0%Z])).2.
  destruct (reduced_hcore_is_inactive_fock _ _ _ E) as (h & F & Hh & HF & _).
  exists r. split; [reflexivity|]. exists h, F. split; assumption.
Defined.

Lemma default_mode_particle_numbers_witness :
  exists r, (transform (config (Some 2%Z) (Some 2%Z) None false None) (h2_molecule [])).2 = Ok r /\
    r !! "num_alpha" = Some (VInt 1) /\ r !! "num_beta" = Some (VInt 1).
Proof.
  success_of (transform (config (Some 2%Z) (Some 2%Z) None false None) (h2_molecule [])).2.
  destruct (default_mode_particle_numbers (config (Some 2%Z) (Some 2%Z) None false None)
              (h2_molecule []) r 2 eq_refl eq_refl E) as [_ Hnone].
  destruct (Hnone eq_refl) as (mult & b & Hm & Hb & Ha & Hbeta & _).
  vm_compute in Hm. injection Hm as <-. vm_compute in Hb. subst b.
  exists r. split; [reflexivity|]. split; assumption.
Defined.


Lemma explicit_inactive_orbitals_witness :
  exists r inact,
    (transform (config (Some 2%Z) (Some 1%Z) (Some [(-1)%Z]) false None) h2_filled).2 = Ok r /\
    transform_partition (config (Some 2%Z) (Some 1%Z) (Some [(-1)%Z]) false None) h2_filled =
      Ok ([(-1)%Z], inact) /\ In 1%Z inact.
Proof.
  success_of (transform (config (Some 2%Z) (Some 1%Z) (Some [(-1)%Z]) false None) h2_filled).2.
  destruct (explicit_inactive_orbitals (config (Some 2%Z) (Some 1%Z) (Some [(-1)%Z]) false None)
              h2_filled r [(-1)%Z] eq_refl eq_refl E)
    as (na & nb & of & inact & Hna & Hnb & Hof & Hp & Hin).
  vm_compute in Hna, Hnb, Hof. injection Hna as Hna; injection Hnb as Hnb; injection Hof as Hof; subst na nb of.
  exists r, inact. split; [reflexivity|]. split; [exact Hp|].
  apply Hin. split; [change ((2 + 2) / 2)%Z with 2%Z; lia|]. split.
  - intros [H|[]]. discriminate H.
  - exists 2. split; [reflexivity|vm_compute; reflexivity].
Defined.

Lemma occupation_fallback_witness :
  exists occ_full, _extract_mo_occupation_vector true h2_no_occ = Ok occ_full /\
    mo_occ_total true occ_full = Ok (aufbau_occ 1 0 2).
Proof.
  apply (occupation_fallback true h2_no_occ 1 0 2); try reflexivity; lia.
Defined.

Lemma build_reads_leading_block_witness :
  build_ferm_op_from_ints fop_add wide_mat (Some wide_t4) =
  build_ferm_op_from_ints fop_add (mkMat (nrows wide_mat) (nrows wide_mat) (entry wide_mat))
    (option_map (fun T => t4_of_fun (d0 T) (tentry T)) (Some wide_t4)).
Proof.
  apply build_reads_leading_block.
  - vm_compute. lia.
  - intros T HT. injection HT as <-. vm_compute. lia.
Defined.

Lemma dipole_shift_is_trace_witness :
  exists e, _compute_inactive_energy h2_ctx (VMat h2_zdip, VNone) (VMat h2_zdip, VNone) = Ok e /\
    e == einsum_trace h2_density h2_zdip.
Proof.
  exists ((1#2) * einsum_trace h2_density (mat_add h2_zdip h2_zdip)). split; [reflexivity|].
  apply (dipole_shift_is_trace h2_ctx ([2; 0], None)); reflexivity.
Defined.

Lemma reduced_one_body_symmetric_witness :
  exists r, (transform (config None None None true None) (h2_molecule [0%Z])).2 = Ok r /\
    exists F Fa, r !! "hcore" = Some (VMat F) /\ r !! "mo_onee_ints" = Some (VMat Fa) /\
      mat_symmetric F /\ mat_symmetric Fa.
Proof.
  success_of (transform (config None None None true None) (h2_molecule [0%Z])).2.
  exists r. split; [reflexivity|].
  apply (reduced_one_body_symmetric (config None None None true None) (h2_molecule [0%Z]) r h2_hcore).
  - reflexivity.
  - split; [reflexivity|]. change (nrows h2_hcore) with 2%nat.
    intros i j Hi Hj.
    assert (Hi' : (i = 0 \/ i = 1)%nat) by lia; assert (Hj' : (j = 0 \/ j = 1)%nat) by lia.
    destruct Hi' as [-> | ->], Hj' as [-> | ->]; reflexivity.
  - intros eri H. change (h2_molecule [0%Z] !! "eri") with (Some (VT4 h2_eri)) in H.
    injection H as <-. split; [|reflexivity].
    split; [reflexivity|]; split; [reflexivity|]; split; [reflexivity|].
    intros i j k l Hi Hj Hk Hl. change (d0 h2_eri) with 2%nat in *.
    assert (Hi' : (i = 0 \/ i = 1)%nat) by lia; assert (Hj' : (j = 0 \/ j = 1)%nat) by lia.
    assert (Hk' : (k = 0 \/ k = 1)%nat) by lia; assert (Hl' : (l = 0 \/ l = 1)%nat) by lia.
    destruct Hi' as [-> | ->], Hj' as [-> | ->], Hk' as [-> | ->], Hl' as [-> | ->];
      repeat split; reflexivity.
  - intros c H. vm_compute in H. injection H as <-. reflexivity.
  - exact E.
Defined.

Lemma reduced_eri_symmetric_witness :
  exists r, (transform (config None None None true None) (h2_molecule [0%Z])).2 = Ok r /\
    exists eri', r !! "mo_eri_ints" = Some (VT4 eri') /\ eri_symmetric eri'.
Proof.
  success_of (transform (config None None None true None) (h2_molecule [0%Z])).2.
  exists r. split; [reflexivity|].
  apply (reduced_eri_symmetric (config None None None true None) (h2_molecule [0%Z]) r h2_eri).
  - reflexivity.
  - split; [reflexivity|]; split; [reflexivity|]; split; [reflexivity|].
    intros i j k l Hi Hj Hk Hl. change (d0 h2_eri) with 2%nat in *.
    assert (Hi' : (i = 0 \/ i = 1)%nat) by lia; assert (Hj' : (j = 0 \/ j = 1)%nat) by lia.
    assert (Hk' : (k = 0 \/ k = 1)%nat) by lia; assert (Hl' : (l = 0 \/ l = 1)%nat) by lia.
    destruct Hi' as [-> | ->], Hj' as [-> | ->], Hk' as [-> | ->], Hl' as [-> | ->];
      repeat split; reflexivity.
  - exact E.
Defined.

Lemma empty_active_list_value_error_witness :
  transform (config (Some 2%Z) (Some 0%Z) (Some []) false None) (h2_molecule []) =
    (h2_molecule [], Err ValueError).
Proof.
  apply (empty_active_list_value_error _ _ (ident2, None, ([2; 0], None), [2; 0]) 1 1 2 2);
    try reflexivity.
  intros _. exists 1%Z. reflexivity.
Defined.

Lemma insufficient_configuration_rejected_witness :
  transform (config None (Some 2%Z) None false None) (h2_molecule []) =
    (h2_molecule [], Err (QiskitNatureError msg_insufficient)).
Proof. apply insufficient_configuration_rejected; [reflexivity|left; reflexivity]. Defined.

Lemma energy_shifts_extended_witness :
  exists r, (transform (config None None None true None) (h2_molecule [0%Z])).2 = Ok r /\
    Forall (fun sh => exists shifts e, h2_molecule [0%Z] !! sh = Some (VDict shifts) /\
              r !! sh = Some (VDict (<["ActiveSpaceTransformer" := e]> shifts)))
      ["energy_shift"; "x_dip_energy_shift"; "y_dip_energy_shift"; "z_dip_energy_shift"].
Proof.
  success_of (transform (config None None None true None) (h2_molecule [0%Z])).2.
  exists r. split; [reflexivity|exact (energy_shifts_extended _ _ _ E)].
Defined.
